(** * Hinted-handoff service (services/hh/service.go)

    A shallow embedding of [Service] and of the parts of the Go standard
    library it calls, followed by the properties of [Open], [Close],
    [WriteShard], [pathforNode] and of one cycle of
    [purgeInactiveProcessors].

    The service talks to collaborators whose code is not part of
    service.go: the file system, the clock, the metastore and the
    [NodeProcessor] type.  They are gathered in an environment [Env] acting
    on an abstract world; every call made to them is recorded, with its
    answer, in a trace. *)

From Stdlib Require Import ZArith NArith String Ascii List Lia.
From stdpp Require Import base option list gmap strings fin_maps.

Local Open Scope string_scope.
Local Open Scope list_scope.
Local Open Scope Z_scope.

(** ** Go values *)

(** Go's [error]: the model keeps the message. *)
Definition error : Type := string.

(** [fmt.Errorf("hinted handoff disabled")] *)
Definition ErrHintedHandoffDisabled : error := "hinted handoff disabled".

Definition writeShardReq : string := "write_shard_req".
Definition writeShardReqPoints : string := "write_shard_req_points".
Definition processReq : string := "process_req".
Definition processReqFail : string := "process_req_fail".

(** The result of running Go code: a value, or a run-time panic. *)
Inductive Res (A : Type) : Type :=
| Val (a : A)
| Panic (msg : string).
Arguments Val {A} a.
Arguments Panic {A} msg.

(** Identity of an allocated [NodeProcessor]; a [*NodeProcessor] variable is
    [None] when it holds nil. *)
Definition addr : Type := positive.
Definition nodeptr : Type := option addr.

(** [time.Time] and [time.Duration], in nanoseconds. *)
Definition Time : Type := Z.
Definition Duration : Type := Z.
Definition Time_Add (t : Time) (d : Duration) : Time := t + d.
Definition Time_Before (t u : Time) : bool := t <? u.

(** [-d] on a [time.Duration], an int64: the negation wraps around at the
    least int64, which it leaves as it is. *)
Definition Duration_neg (d : Duration) : Duration :=
  if d =? - 2 ^ 63 then d else - d.

(** The test of a purge cycle on the age of a processor:
    [lm.Before(now.Add(-time.Duration(maxAge)))]. *)
Definition aged (maxAge : Duration) (lm now : Time) : bool :=
  Time_Before lm (Time_Add now (Duration_neg maxAge)).

(** [models.Point]: opaque to the service, which only counts them. *)
Inductive Point : Type := MkPoint (encoded : string).

(** [meta.NodeInfo]: the service only tests the pointer against nil. *)
Record NodeInfo : Type := { ID : N; Host : string }.

(** Modelled from the spec: [Config] is declared in config.go, which is not
    part of service.go; these are the options read by the service. *)
Record Config : Type := {
  Enabled : bool;
  Dir : string;
  MaxAge : Duration;
  PurgeInterval : Duration
}.

(** ** Go standard library *)

Definition maxUint64 : N := 18446744073709551615%N.

Definition digit_of (c : ascii) : option N :=
  let n := N_of_ascii c in
  if ((48 <=? n) && (n <=? 57))%N then Some (n - 48)%N else None.

(** The digit loop of [strconv.ParseUint(s, 10, 64)]; [None] is a non-nil
    error (syntax or range). *)
Fixpoint ParseUint_loop (s : string) (n : N) : option N :=
  match s with
  | EmptyString => Some n
  | String c rest =>
      match digit_of c with
      | None => None
      | Some d =>
          if (maxUint64 / 10 + 1 <=? n)%N then None
          else
            let n1 := (n * 10 + d)%N in
            if (maxUint64 <? n1)%N then None else ParseUint_loop rest n1
      end
  end.

Definition ParseUint (s : string) : option N :=
  match s with
  | EmptyString => None
  | _ => ParseUint_loop s 0%N
  end.

Definition digit_char (d : N) : ascii := ascii_of_N (48 + d).

Fixpoint fmt_digits (fuel : nat) (n : N) (acc : string) : string :=
  let acc' := String (digit_char (n mod 10)%N) acc in
  match fuel with
  | O => acc'
  | S fuel' => if (n <? 10)%N then acc' else fmt_digits fuel' (n / 10)%N acc'
  end.

(** [fmt.Sprintf("%d", n)] for a uint64 (at most 20 digits). *)
Definition fmt_Sprintf_d (n : N) : string := fmt_digits 19 n "".

(** [strings.Split(s, "/")] *)
Fixpoint split_slash_aux (s : string) (cur : string) : list string :=
  match s with
  | EmptyString => [cur]
  | String c rest =>
      if Ascii.eqb c "/" then cur :: split_slash_aux rest ""
      else split_slash_aux rest (cur +:+ String c "")
  end.
Definition split_slash (s : string) : list string := split_slash_aux s "".

(** [strings.Join(l, "/")] *)
Fixpoint join_slash (l : list string) : string :=
  match l with
  | [] => ""
  | [x] => x
  | x :: rest => x +:+ "/" +:+ join_slash rest
  end.

(** One step of [filepath.Clean] on the stack of kept elements (top first). *)
Definition clean_step (rooted : bool) (stack : list string) (c : string)
  : list string :=
  if String.eqb c "" then stack
  else if String.eqb c "." then stack
  else if String.eqb c ".." then
    match stack with
    | top :: below =>
        if String.eqb top ".." then c :: stack else below
    | [] => if rooted then [] else [c]
    end
  else c :: stack.

Definition is_rooted (path : string) : bool :=
  match path with
  | String c _ => Ascii.eqb c "/"
  | EmptyString => false
  end.

(** [filepath.Clean] on a slash-separated path. *)
Definition filepath_Clean (path : string) : string :=
  let rooted := is_rooted path in
  let kept := rev (fold_left (clean_step rooted) (split_slash path) []) in
  let out := (if rooted then "/" else "") +:+ join_slash kept in
  if String.eqb out "" then "." else out.

(** [filepath.Join]: empty elements are dropped, the rest is joined with
    the separator and cleaned. *)
Definition filepath_Join (elem : list string) : string :=
  match filter (fun e => e ≠ "") elem with
  | [] => ""
  | l => filepath_Clean (join_slash l)
  end.

(** Whether a path element holds a separator. *)
Fixpoint has_slash (s : string) : bool :=
  match s with
  | EmptyString => false
  | String c rest => Ascii.eqb c "/" || has_slash rest
  end.

(** The text printed by [Println(format, k, err.Error())]: the operands
    separated by spaces; the verbs of [format] are not interpreted. *)
Definition Println_msg (format : string) (k : N) (err : error) : string :=
  format +:+ " " +:+ fmt_Sprintf_d k +:+ " " +:+ err.

(** [expvar.Int.Add]: an int64 addition. *)
Definition wrap_int64 (z : Z) : Z := (z + 2 ^ 63) mod 2 ^ 64 - 2 ^ 63.

(** ** Service state *)

(** The [closing] channel is only ever made and closed. *)
Inductive chan : Type := ChanOpen | ChanClosed.

(** [processors] is [None] while the Go map is nil.  The mutex [mu] and the
    wait group [wg] only appear through the calls made on them. *)
Record Service : Type := {
  closing : option chan;
  processors : option (gmap N addr);
  statMap : gmap string Z;
  cfg : Config
}.

(** The processor recorded for node [k], if any. *)
Definition processor_of (s : Service) (k : N) : option addr :=
  match processors s with
  | Some m => m !! k
  | None => None
  end.

(** ** Calls and answers *)

Inductive event : Type :=
| EvLock | EvUnlock | EvRLock | EvRUnlock
| EvLog (msg : string)
| EvStatAdd (key : string) (delta : Z)
| EvMkdirAll (path : string) (err : option error)
| EvReadDir (path : string) (names : list string) (err : option error)
| EvNewNodeProcessor (nodeID : N) (dir : string) (p : addr)
| EvOpen (recv : nodeptr) (r : Res (option error))
| EvClose (p : addr) (err : option error)
| EvWriteShard (recv : nodeptr) (shardID : N) (points : list Point)
    (r : Res (option error))
| EvLastModified (p : addr) (lm : Time) (err : option error)
| EvPurge (p : addr) (err : option error)
| EvNode (id : N) (ni : option NodeInfo) (err : option error)
| EvNow (t : Time)
| EvCloseChan
| EvWgAdd (delta : Z)
| EvWgDone
| EvWgWait
| EvGoPurge
| EvNewTicker (d : Duration)
| EvTickerStop.

(** The collaborators of the service.  [nil_Open] and [nil_WriteShard] are
    what the [NodeProcessor] methods do with a nil receiver; [range_order]
    is the order in which a [range] over the map visits its entries. *)
Record Env (W : Type) : Type := {
  os_MkdirAll : string -> W -> option error * W;
  ioutil_ReadDir : string -> W -> (list string * option error) * W;
  NewNodeProcessor : N -> string -> W -> addr * W;
  np_Open : addr -> W -> option error * W;
  np_Close : addr -> W -> option error * W;
  np_WriteShard : addr -> N -> list Point -> W -> option error * W;
  np_LastModified : addr -> W -> (Time * option error) * W;
  np_Purge : addr -> W -> option error * W;
  nil_Open : W -> Res (option error) * W;
  nil_WriteShard : N -> list Point -> W -> Res (option error) * W;
  metastore_Node : N -> W -> (option NodeInfo * option error) * W;
  time_Now : W -> Time * W;
  range_order : list (N * addr) -> W -> list (N * addr);
  range_order_perm : forall l w, range_order l w ≡ₚ l
}.
Arguments os_MkdirAll {W} _ _ _.
Arguments ioutil_ReadDir {W} _ _ _.
Arguments NewNodeProcessor {W} _ _ _ _.
Arguments np_Open {W} _ _ _.
Arguments np_Close {W} _ _ _.
Arguments np_WriteShard {W} _ _ _ _ _.
Arguments np_LastModified {W} _ _ _.
Arguments np_Purge {W} _ _ _.
Arguments nil_Open {W} _ _.
Arguments nil_WriteShard {W} _ _ _ _.
Arguments metastore_Node {W} _ _ _.
Arguments time_Now {W} _ _.
Arguments range_order {W} _ _ _.
Arguments range_order_perm {W} _ _ _.

(** ** The monad of service code *)

Record State (W : Type) : Type := {
  svc : Service;
  world : W;
  trace : list event
}.
Arguments Build_State {W} _ _ _.
Arguments svc {W} _.
Arguments world {W} _.
Arguments trace {W} _.

Definition M (W A : Type) : Type := State W -> Res A * State W.

Definition ret {W A} (a : A) : M W A := fun st => (Val a, st).

Definition bind {W A B} (m : M W A) (k : A -> M W B) : M W B :=
  fun st =>
    match m st with
    | (Val a, st') => k a st'
    | (Panic msg, st') => (Panic msg, st')
    end.

Definition panic {W A} (msg : string) : M W A := fun st => (Panic msg, st).

Declare Scope go_scope.
Delimit Scope go_scope with go.
Notation "x <- m ;; k" := (bind m (fun x => k))
  (at level 100, m at next level, right associativity) : go_scope.
Notation "m ;; k" := (bind m (fun _ => k))
  (at level 100, right associativity) : go_scope.

(** [defer d] placed in front of [body]: [d] runs when [body] returns and
    also when it panics. *)
Definition defer {W A} (d : M W unit) (body : M W A) : M W A :=
  fun st =>
    let '(r, st1) := body st in
    let '(_, st2) := d st1 in
    (r, st2).

(** ** Service code *)

Section ServiceCode.
Context {W : Type} (E : Env W).

Local Open Scope go_scope.

Definition get_svc : M W Service := fun st => (Val (svc st), st).

Definition set_svc (s : Service) : M W unit :=
  fun st => (Val tt, Build_State s (world st) (trace st)).

Definition emit (e : event) : M W unit :=
  fun st => (Val tt, Build_State (svc st) (world st) (trace st ++ [e])).

(** A call to a collaborator: the answer comes from the environment and
    the call is recorded with it. *)
Definition call {A} (f : W -> A * W) (ev : A -> event) : M W A :=
  fun st =>
    let '(a, w') := f (world st) in
    (Val a, Build_State (svc st) w' (trace st ++ [ev a])).

(** The same for a call that may panic. *)
Definition call_res {A} (f : W -> Res A * W) (ev : Res A -> event) : M W A :=
  fun st =>
    let '(r, w') := f (world st) in
    (r, Build_State (svc st) w' (trace st ++ [ev r])).

Definition mu_Lock : M W unit := emit EvLock.
Definition mu_Unlock : M W unit := emit EvUnlock.
Definition mu_RLock : M W unit := emit EvRLock.
Definition mu_RUnlock : M W unit := emit EvRUnlock.
Definition wg_Add (delta : Z) : M W unit := emit (EvWgAdd delta).
Definition wg_Done : M W unit := emit EvWgDone.
Definition wg_Wait : M W unit := emit EvWgWait.
Definition Logger_Print (msg : string) : M W unit := emit (EvLog msg).

(** [s.Logger.Println(format, k, err.Error())] *)
Definition Logger_Println (format : string) (k : N) (err : error) : M W unit :=
  Logger_Print (Println_msg format k err).

(** [s.statMap.Add(key, delta)] *)
Definition statMap_Add (key : string) (delta : Z) : M W unit :=
  s <- get_svc ;;
  emit (EvStatAdd key delta) ;;
  set_svc {| closing := closing s;
             processors := processors s;
             statMap := <[key := wrap_int64 (default 0 (statMap s !! key) + delta)]>
                          (statMap s);
             cfg := cfg s |}.

(** [v, ok := s.processors[k]]: [None] when [ok] is false. *)
Definition processors_get (k : N) : M W (option addr) :=
  s <- get_svc ;;
  ret (processor_of s k).

(** [s.processors[k] = v] *)
Definition processors_set (k : N) (v : addr) : M W unit :=
  s <- get_svc ;;
  match processors s with
  | None => panic "assignment to entry in nil map"
  | Some m =>
      set_svc {| closing := closing s;
                 processors := Some (<[k := v]> m);
                 statMap := statMap s;
                 cfg := cfg s |}
  end.

(** [delete(s.processors, k)] *)
Definition processors_delete (k : N) : M W unit :=
  s <- get_svc ;;
  match processors s with
  | None => ret tt
  | Some m =>
      set_svc {| closing := closing s;
                 processors := Some (delete k m);
                 statMap := statMap s;
                 cfg := cfg s |}
  end.

(** The entries visited by [for k, v := range s.processors], in the order
    of the visit. *)
Definition range_entries (st : State W) : list (N * addr) :=
  match processors (svc st) with
  | Some m => range_order E (map_to_list m) (world st)
  | None => []
  end.

Definition processors_range : M W (list (N * addr)) :=
  fun st => (Val (range_entries st), st).

Definition set_closing (c : option chan) : M W unit :=
  s <- get_svc ;;
  set_svc {| closing := c;
             processors := processors s;
             statMap := statMap s;
             cfg := cfg s |}.

(** [close(s.closing)] *)
Definition close_closing : M W unit :=
  s <- get_svc ;;
  match closing s with
  | None => panic "close of nil channel"
  | Some ChanClosed => panic "close of closed channel"
  | Some ChanOpen => emit EvCloseChan ;; set_closing (Some ChanClosed)
  end.

(** Method calls on a [*NodeProcessor]. *)
Definition processor_Open (recv : nodeptr) : M W (option error) :=
  call_res (match recv with
            | Some p => fun w => let '(err, w') := np_Open E p w in (Val err, w')
            | None => nil_Open E
            end)
           (EvOpen recv).

Definition processor_WriteShard (recv : nodeptr) (shardID : N)
    (points : list Point) : M W (option error) :=
  call_res (match recv with
            | Some p =>
                fun w => let '(err, w') := np_WriteShard E p shardID points w in
                         (Val err, w')
            | None => nil_WriteShard E shardID points
            end)
           (EvWriteShard recv shardID points).

Definition processor_Close (p : addr) : M W (option error) :=
  call (np_Close E p) (EvClose p).

Definition processor_Purge (p : addr) : M W (option error) :=
  call (np_Purge E p) (EvPurge p).

Definition processor_LastModified (p : addr) : M W (Time * option error) :=
  call (np_LastModified E p) (fun r => EvLastModified p (fst r) (snd r)).

Definition new_NodeProcessor (nodeID : N) (dir : string) : M W addr :=
  call (NewNodeProcessor E nodeID dir) (EvNewNodeProcessor nodeID dir).

Definition Node (id : N) : M W (option NodeInfo * option error) :=
  call (metastore_Node E id) (fun r => EvNode id (fst r) (snd r)).

Definition Now : M W Time := call (time_Now E) EvNow.

Definition MkdirAll (path : string) : M W (option error) :=
  call (os_MkdirAll E path) (EvMkdirAll path).

Definition ReadDir (path : string) : M W (list string * option error) :=
  call (ioutil_ReadDir E path) (fun r => EvReadDir path (fst r) (snd r)).

(** [NewService]: the [processors] map is left nil. *)
Definition NewService (c : Config) : Service :=
  {| closing := None; processors := None; statMap := ∅; cfg := c |}.

(** [pathforNode] *)
Definition pathforNode (s : Service) (nodeID : N) : string :=
  filepath_Join [Dir (cfg s); fmt_Sprintf_d nodeID].

(** The loop of [Open] over the directory entries; the result is the error
    returned from inside the loop, if any. *)
Fixpoint Open_loop (files : list string) : M W (option error) :=
  match files with
  | [] => ret None
  | file :: rest =>
      match ParseUint file with
      | None => Open_loop rest
      | Some nodeID =>
          s <- get_svc ;;
          n <- new_NodeProcessor nodeID (pathforNode s nodeID) ;;
          err <- processor_Open (Some n) ;;
          match err with
          | Some e => ret (Some e)
          | None => processors_set nodeID n ;; Open_loop rest
          end
      end
  end.

Definition Open : M W (option error) :=
  mu_Lock ;;
  defer mu_Unlock (
    s <- get_svc ;;
    if negb (Enabled (cfg s)) then ret None
    else
      Logger_Print "Starting hinted handoff service" ;;
      set_closing (Some ChanOpen) ;;
      Logger_Print ("Using data dir: " +:+ Dir (cfg s)) ;;
      err <- MkdirAll (Dir (cfg s)) ;;
      match err with
      | Some e => ret (Some ("mkdir all: " +:+ e))
      | None =>
          r <- ReadDir (Dir (cfg s)) ;;
          match snd r with
          | Some e => ret (Some e)
          | None =>
              err <- Open_loop (fst r) ;;
              match err with
              | Some e => ret (Some e)
              | None => wg_Add 1 ;; emit EvGoPurge ;; ret None
              end
          end
      end).

(** The loop of [Close] over the processors. *)
Fixpoint Close_loop (ps : list (N * addr)) : M W (option error) :=
  match ps with
  | [] => ret None
  | (_, p) :: rest =>
      err <- processor_Close p ;;
      match err with
      | Some e => ret (Some e)
      | None => Close_loop rest
      end
  end.

Definition Close : M W (option error) :=
  mu_Lock ;;
  defer mu_Unlock (
    ps <- processors_range ;;
    err <- Close_loop ps ;;
    match err with
    | Some e => ret (Some e)
    | None =>
        s <- get_svc ;;
        match closing s with
        | Some _ => close_closing
        | None => ret tt
        end ;;
        wg_Wait ;;
        set_closing None ;;
        ret None
    end).

Definition WriteShard (shardID ownerID : N) (points : list Point)
  : M W (option error) :=
  s <- get_svc ;;
  if negb (Enabled (cfg s)) then ret (Some ErrHintedHandoffDisabled)
  else
    statMap_Add writeShardReq 1 ;;
    statMap_Add writeShardReqPoints (Z.of_nat (length points)) ;;
    mu_RLock ;;
    processor <- processors_get ownerID ;;
    mu_RUnlock ;;
    r <- match processor with
         | Some _ => ret (processor, None)
         | None =>
             mu_Lock ;;
             defer mu_Unlock (
               processor <- processors_get ownerID ;;
               match processor with
               | Some _ => ret (processor, None)
               | None =>
                   s <- get_svc ;;
                   p <- new_NodeProcessor ownerID (pathforNode s ownerID) ;;
                   err <- processor_Open processor ;;
                   match err with
                   | Some e => ret (processor, Some e)
                   | None =>
                       processors_set ownerID p ;;
                       processor <- processors_get ownerID ;;
                       ret (processor, None)
                   end
               end)
         end ;;
    match snd r with
    | Some e => ret (Some e)
    | None =>
        err <- processor_WriteShard (fst r) shardID points ;;
        match err with
        | Some e => ret (Some e)
        | None => ret None
        end
    end.

(** The body of the loop of a purge cycle, for the entry [(k, v)]. *)
Definition purge_processor (k : N) (v : addr) : M W unit :=
  r <- processor_LastModified v ;;
  match snd r with
  | Some e =>
      Logger_Println "failed to determine LastModified for processor %d: %s" k e
  | None =>
      let lm := fst r in
      r <- Node k ;;
      match snd r with
      | Some e =>
          Logger_Println "failed to determine if node %d is active: %s" k e
      | None =>
          match fst r with
          | Some _ => ret tt
          | None =>
              s <- get_svc ;;
              now <- Now ;;
              if negb (Time_Before lm
                         (Time_Add now (Duration_neg (MaxAge (cfg s)))))
              then ret tt
              else
                err <- processor_Close v ;;
                match err with
                | Some e =>
                    Logger_Println "failed to close node processor %d: %s" k e
                | None =>
                    err <- processor_Purge v ;;
                    match err with
                    | Some e =>
                        Logger_Println
                          "failed to close node processor %d: %s" k e
                    | None => processors_delete k
                    end
                end
          end
      end
  end.

Fixpoint purge_loop (ps : list (N * addr)) : M W unit :=
  match ps with
  | [] => ret tt
  | (k, v) :: rest => purge_processor k v ;; purge_loop rest
  end.

(** What [purgeInactiveProcessors] does on a tick. *)
Definition purge_cycle : M W unit :=
  mu_Lock ;;
  defer mu_Unlock (
    ps <- processors_range ;;
    purge_loop ps).

Fixpoint purge_ticks (ticks : nat) : M W unit :=
  match ticks with
  | O => ret tt
  | S n => purge_cycle ;; purge_ticks n
  end.

(** A run of [purgeInactiveProcessors] in which the ticker fires [ticks]
    times before [closing] is closed. *)
Definition purgeInactiveProcessors (ticks : nat) : M W unit :=
  defer wg_Done (
    s <- get_svc ;;
    (if PurgeInterval (cfg s) <=? 0
     then panic "non-positive interval for NewTicker"
     else emit (EvNewTicker (PurgeInterval (cfg s)))) ;;
    defer (emit EvTickerStop) (purge_ticks ticks)).

End ServiceCode.

(** ** A simulated environment

    A small concrete world used to run the service: directories with their
    entries, a clock, the cluster members, and the processors that were
    allocated, with switches that make individual calls fail. *)

Record Sim : Type := {
  sim_dirs : gmap string (list string);
  sim_next : addr;
  sim_now : Time;
  sim_members : list N;
  sim_lastmod : list (addr * Time);
  sim_fail_open : list addr;
  sim_fail_close : list addr;
  sim_fail_purge : list addr;
  sim_fail_lastmod : list addr;
  sim_fail_node : list N;
  sim_nil_panics : bool;
  sim_range_rev : bool
}.

Definition sim_result (p : addr) (failing : list addr) (msg : error)
  : option error :=
  if bool_decide (p ∈ failing) then Some msg else None.

Definition sim_lookup_lastmod (p : addr) (l : list (addr * Time)) : Time :=
  match list_find (fun e => fst e = p) l with
  | Some (_, (_, t)) => t
  | None => 0
  end.

Definition sim_MkdirAll (path : string) (w : Sim) : option error * Sim :=
  match sim_dirs w !! path with
  | Some _ => (None, w)
  | None =>
      (None,
       {| sim_dirs := <[path := []]> (sim_dirs w);
          sim_next := sim_next w; sim_now := sim_now w;
          sim_members := sim_members w; sim_lastmod := sim_lastmod w;
          sim_fail_open := sim_fail_open w; sim_fail_close := sim_fail_close w;
          sim_fail_purge := sim_fail_purge w;
          sim_fail_lastmod := sim_fail_lastmod w;
          sim_fail_node := sim_fail_node w;
          sim_nil_panics := sim_nil_panics w;
          sim_range_rev := sim_range_rev w |})
  end.

Definition sim_ReadDir (path : string) (w : Sim)
  : (list string * option error) * Sim :=
  match sim_dirs w !! path with
  | Some names => ((names, None), w)
  | None => (([], Some "no such file or directory"), w)
  end.

Definition sim_NewNodeProcessor (nodeID : N) (dir : string) (w : Sim)
  : addr * Sim :=
  (sim_next w,
   {| sim_dirs := sim_dirs w;
      sim_next := Pos.succ (sim_next w); sim_now := sim_now w;
      sim_members := sim_members w; sim_lastmod := sim_lastmod w;
      sim_fail_open := sim_fail_open w; sim_fail_close := sim_fail_close w;
      sim_fail_purge := sim_fail_purge w;
      sim_fail_lastmod := sim_fail_lastmod w;
      sim_fail_node := sim_fail_node w;
      sim_nil_panics := sim_nil_panics w;
      sim_range_rev := sim_range_rev w |}).

Definition sim_nil_call (w : Sim) : Res (option error) * Sim :=
  if sim_nil_panics w
  then (Panic "invalid memory address or nil pointer dereference", w)
  else (Val None, w).

Definition sim_Node (id : N) (w : Sim)
  : (option NodeInfo * option error) * Sim :=
  if bool_decide (id ∈ sim_fail_node w) then ((None, Some "meta unavailable"), w)
  else if bool_decide (id ∈ sim_members w)
       then ((Some {| ID := id; Host := "" |}, None), w)
       else ((None, None), w).

Definition sim_range (l : list (N * addr)) (w : Sim) : list (N * addr) :=
  if sim_range_rev w then rev l else l.

Definition sim_range_perm (l : list (N * addr)) (w : Sim)
  : sim_range l w ≡ₚ l :=
  match sim_range_rev w as b return (if b then rev l else l) ≡ₚ l with
  | true => Permutation_sym (Permutation_rev l)
  | false => Permutation_refl l
  end.

Definition SimEnv : Env Sim := {|
  os_MkdirAll := sim_MkdirAll;
  ioutil_ReadDir := sim_ReadDir;
  NewNodeProcessor := sim_NewNodeProcessor;
  np_Open := fun p w => (sim_result p (sim_fail_open w) "open failed", w);
  np_Close := fun p w => (sim_result p (sim_fail_close w) "close failed", w);
  np_WriteShard := fun p _ _ w => (None, w);
  np_LastModified := fun p w =>
    ((sim_lookup_lastmod p (sim_lastmod w),
      sim_result p (sim_fail_lastmod w) "stat failed"), w);
  np_Purge := fun p w => (sim_result p (sim_fail_purge w) "purge failed", w);
  nil_Open := sim_nil_call;
  nil_WriteShard := fun _ _ => sim_nil_call;
  metastore_Node := sim_Node;
  time_Now := fun w => (sim_now w, w);
  range_order := sim_range;
  range_order_perm := sim_range_perm
|}.

(** A quiet world: the given directories, clock and members, no failing
    call, nil receivers panic. *)
Definition sim_world (dirs : list (string * list string)) (now : Time)
    (members : list N) (lastmod : list (addr * Time)) : Sim :=
  {| sim_dirs := list_to_map dirs;
     sim_next := 1%positive; sim_now := now;
     sim_members := members; sim_lastmod := lastmod;
     sim_fail_open := []; sim_fail_close := []; sim_fail_purge := [];
     sim_fail_lastmod := []; sim_fail_node := [];
     sim_nil_panics := true; sim_range_rev := false |}.

Definition sim_config (enabled : bool) : Config :=
  {| Enabled := enabled; Dir := "/var/hh";
     MaxAge := 3600000000000; PurgeInterval := 60000000000 |}.

(** A world like [sim_world] in which a method called on a nil receiver
    returns nil instead of panicking. *)
Definition sim_world_nil_ok (dirs : list (string * list string)) : Sim :=
  {| sim_dirs := list_to_map dirs;
     sim_next := 1%positive; sim_now := 0;
     sim_members := []; sim_lastmod := [];
     sim_fail_open := []; sim_fail_close := []; sim_fail_purge := [];
     sim_fail_lastmod := []; sim_fail_node := [];
     sim_nil_panics := false; sim_range_rev := false |}.

(** An open service whose processor map was made and holds [ps]. *)
Definition sim_service (ps : list (N * addr)) : Service :=
  {| closing := Some ChanOpen; processors := Some (list_to_map ps);
     statMap := ∅; cfg := sim_config true |}.

(** One hour and one minute, in nanoseconds. *)
Definition hour : Duration := 3600000000000.
Definition minute : Duration := 60000000000.

(** A world for purge cycles: it is three o'clock, node 51 is the only
    member, and the processors listed in the last four arguments fail in
    [LastModified], [Node], [Close] and [Purge]. *)
Definition sim_world_purge (lastmod : list (addr * Time))
    (bad_lastmod : list addr) (bad_node : list N)
    (bad_close bad_purge : list addr) : Sim :=
  {| sim_dirs := ∅;
     sim_next := 1%positive; sim_now := 3 * hour;
     sim_members := [51%N]; sim_lastmod := lastmod;
     sim_fail_open := []; sim_fail_close := bad_close;
     sim_fail_purge := bad_purge;
     sim_fail_lastmod := bad_lastmod; sim_fail_node := bad_node;
     sim_nil_panics := true; sim_range_rev := true |}.

(** The state in which a service starts running. *)
Definition start {W} (s : Service) (w : W) : State W :=
  {| svc := s; world := w; trace := [] |}.

(** What a method call has added to the trace. *)
Definition new_events {W} (st st' : State W) (evs : list event) : Prop :=
  trace st' = trace st ++ evs.

(** The entries of the processor map (none for a nil map). *)
Definition entries (s : Service) : list (N * addr) :=
  match processors s with
  | Some m => map_to_list m
  | None => []
  end.

(** The value of a counter of the statistics map. *)
Definition stat (s : Service) (key : string) : Z :=
  default 0 (statMap s !! key).

(** A successful [Close] of the processor of an entry. *)
Definition close_ok (kp : N * addr) : event := EvClose (snd kp) None.

(** The signal sent by [Close] to the purge task. *)
Definition closing_signal (s : Service) : list event :=
  match closing s with
  | Some _ => [EvCloseChan]
  | None => []
  end.

(** The sentence of the specification on [Close]: every processor of the
    map is closed, then the purge task is signalled and waited for. *)
Definition Close_closes_all {W} (E : Env W) (st : State W) : Prop :=
  let st' := snd (Close E st) in
  (forall k p, (k, p) ∈ entries (svc st) -> exists err, EvClose p err ∈ trace st') /\
  (closing (svc st) <> None -> EvCloseChan ∈ trace st') /\
  EvWgWait ∈ trace st'.

(** A world in which the [Close] of the listed processors fails. *)
Definition sim_world_bad_close (failing : list addr) (rev_range : bool) : Sim :=
  {| sim_dirs := ∅;
     sim_next := 1%positive; sim_now := 0;
     sim_members := []; sim_lastmod := [];
     sim_fail_open := []; sim_fail_close := failing; sim_fail_purge := [];
     sim_fail_lastmod := []; sim_fail_node := [];
     sim_nil_panics := true; sim_range_rev := rev_range |}.

(** The service after [delete(s.processors, k)]. *)
Definition delete_processor (k : N) (s : Service) : Service :=
  {| closing := closing s;
     processors := delete k <$> processors s;
     statMap := statMap s;
     cfg := cfg s |}.

(** The calls a purge cycle can make while it visits the entry [(k, v)],
    with their answers; the flag tells whether the entry is deleted. *)
Inductive visit (maxAge : Duration) (k : N) (v : addr)
  : list event -> bool -> Prop :=
| visit_LastModified_error lm e :
    visit maxAge k v
      [EvLastModified v lm (Some e);
       EvLog (Println_msg
                "failed to determine LastModified for processor %d: %s" k e)]
      false
| visit_Node_error lm ni e :
    visit maxAge k v
      [EvLastModified v lm None; EvNode k ni (Some e);
       EvLog (Println_msg "failed to determine if node %d is active: %s" k e)]
      false
| visit_active lm ni :
    visit maxAge k v
      [EvLastModified v lm None; EvNode k (Some ni) None] false
| visit_young lm now :
    aged maxAge lm now = false ->
    visit maxAge k v
      [EvLastModified v lm None; EvNode k None None; EvNow now] false
| visit_Close_error lm now e :
    aged maxAge lm now = true ->
    visit maxAge k v
      [EvLastModified v lm None; EvNode k None None; EvNow now;
       EvClose v (Some e);
       EvLog (Println_msg "failed to close node processor %d: %s" k e)]
      false
| visit_Purge_error lm now e :
    aged maxAge lm now = true ->
    visit maxAge k v
      [EvLastModified v lm None; EvNode k None None; EvNow now;
       EvClose v None; EvPurge v (Some e);
       EvLog (Println_msg "failed to close node processor %d: %s" k e)]
      false
| visit_purged lm now :
    aged maxAge lm now = true ->
    visit maxAge k v
      [EvLastModified v lm None; EvNode k None None; EvNow now;
       EvClose v None; EvPurge v None]
      true.

(** The check of a purge cycle passed for the entry [(k, v)]: the calls
    start with a last-modified time read without error, the metastore
    answering that node [k] is unknown, without error, and a clock reading
    [now] with [lm] before [now - maxAge]. *)
Definition check_passed (maxAge : Duration) (k : N) (v : addr)
    (block : list event) : Prop :=
  exists lm now rest,
    block = EvLastModified v lm None :: EvNode k None None :: EvNow now :: rest /\
    lm < now - maxAge.

(** The same with the test on the age as the code makes it. *)
Definition age_check_passed (maxAge : Duration) (k : N) (v : addr)
    (block : list event) : Prop :=
  exists lm now rest,
    block = EvLastModified v lm None :: EvNode k None None :: EvNow now :: rest /\
    aged maxAge lm now = true.

(** The state after [n] purge cycles run one after the other. *)
Fixpoint purge_cycles {W} (E : Env W) (n : nat) (st : State W) : State W :=
  match n with
  | O => st
  | S n' => purge_cycles E n' (snd (purge_cycle E st))
  end.

(** The number of times the mutex is locked in a list of calls. *)
Fixpoint lock_count (evs : list event) : nat :=
  match evs with
  | [] => O
  | EvLock :: rest => S (lock_count rest)
  | _ :: rest => lock_count rest
  end.

(** One of the calls made for the entry [(k, v)] returned an error. *)
Definition block_has_error (k : N) (v : addr) (block : list event) : Prop :=
  exists e,
    (exists lm, EvLastModified v lm (Some e) ∈ block) \/
    (exists ni, EvNode k ni (Some e) ∈ block) \/
    EvClose v (Some e) ∈ block \/
    EvPurge v (Some e) ∈ block.

(** The sentence of the specification on directory names: the decimal
    rendering of [n] padded with zeros on the left up to [width]
    characters. *)
Definition zero_padded (width : nat) (n : N) : string :=
  let digits := fmt_Sprintf_d n in
  string_of_list_ascii
    (repeat "0"%char (width - String.length digits)) +:+ digits.

(** The last element of a cleaned path, as [filepath.Base] gives it. *)
Definition filepath_Base (path : string) : string :=
  default "" (last (split_slash path)).

(** The directory entries for which [Open] makes a processor. *)
Definition is_node_dir (name : string) : bool :=
  match ParseUint name with
  | Some _ => true
  | None => false
  end.

(** ** Relations between the states before and after a piece of code *)

(** What no code of the service but [statMap_Add] changes: the counters
    and the configuration stay, the trace is extended, here by events that
    satisfy [Q]. *)
Definition frame {W} (Q : event -> Prop) (st st' : State W) : Prop :=
  statMap (svc st') = statMap (svc st) /\
  cfg (svc st') = cfg (svc st) /\
  exists evs, trace st' = trace st ++ evs /\ Forall Q evs.

Definition preserves {W A} (Q : event -> Prop) (m : M W A) : Prop :=
  forall st, frame Q st (snd (m st)).

(** Every event added by [m] satisfies [Q]. *)
Definition emits {W A} (Q : event -> Prop) (m : M W A) : Prop :=
  forall st, exists evs,
    trace (snd (m st)) = trace st ++ evs /\ Forall Q evs.

(** The events that are not a call of [Open] on an allocated processor. *)
Definition not_Open_of_processor (e : event) : Prop :=
  forall p r, e <> EvOpen (Some p) r.

(** The range of an int64. *)
Definition int64 (z : Z) : Prop := - 2 ^ 63 <= z < 2 ^ 63.

(** ** Sequences of calls *)

Inductive api_call : Type :=
| CallOpen
| CallClose
| CallWriteShard (shardID ownerID : N) (points : list Point).

Definition do_call {W} (E : Env W) (c : api_call) : M W (option error) :=
  match c with
  | CallOpen => Open E
  | CallClose => Close E
  | CallWriteShard shardID ownerID points => WriteShard E shardID ownerID points
  end.

(** The calls of [cs] made one after the other, with their results. *)
Fixpoint do_calls {W} (E : Env W) (cs : list api_call)
  : M W (list (option error)) :=
  match cs with
  | [] => ret []
  | c :: rest =>
      (r <- do_call E c ;;
       rs <- do_calls E rest ;;
       ret (r :: rs))%go
  end.

(** What the specification announces for a disabled service. *)
Definition disabled_result (c : api_call) : option error :=
  match c with
  | CallOpen | CallClose => None
  | CallWriteShard _ _ _ => Some ErrHintedHandoffDisabled
  end.


(** ** Further definitions on the service *)

(** The calls of [WriteShard] that a list of requests makes one after the
    other, each on the state left by the one before, whatever it
    returned. *)
Fixpoint write_all {W} (E : Env W) (reqs : list (N * N * list Point))
    (st : State W) : State W :=
  match reqs with
  | [] => st
  | (shardID, ownerID, points) :: rest =>
      write_all E rest (snd (WriteShard E shardID ownerID points st))
  end.

(** The number of points of a list of requests. *)
Definition total_points (reqs : list (N * N * list Point)) : Z :=
  foldr (fun req acc => Z.of_nat (length (snd req)) + acc) 0 reqs.


(** The simulated environment with processors that always open. *)
Definition SimEnvOpen : Env Sim := {|
  os_MkdirAll := sim_MkdirAll;
  ioutil_ReadDir := sim_ReadDir;
  NewNodeProcessor := sim_NewNodeProcessor;
  np_Open := fun p w => (None, w);
  np_Close := fun p w => (sim_result p (sim_fail_close w) "close failed", w);
  np_WriteShard := fun p _ _ w => (None, w);
  np_LastModified := fun p w =>
    ((sim_lookup_lastmod p (sim_lastmod w),
      sim_result p (sim_fail_lastmod w) "stat failed"), w);
  np_Purge := fun p w => (sim_result p (sim_fail_purge w) "purge failed", w);
  nil_Open := sim_nil_call;
  nil_WriteShard := fun _ _ => sim_nil_call;
  metastore_Node := sim_Node;
  time_Now := fun w => (sim_now w, w);
  range_order := sim_range;
  range_order_perm := sim_range_perm
|}.

(** The simulated environment with the file system calls replaced. *)
Definition SimEnvFs
    (mkdir : string -> Sim -> option error * Sim)
    (readdir : string -> Sim -> (list string * option error) * Sim)
  : Env Sim := {|
  os_MkdirAll := mkdir;
  ioutil_ReadDir := readdir;
  NewNodeProcessor := sim_NewNodeProcessor;
  np_Open := fun p w => (sim_result p (sim_fail_open w) "open failed", w);
  np_Close := fun p w => (sim_result p (sim_fail_close w) "close failed", w);
  np_WriteShard := fun p _ _ w => (None, w);
  np_LastModified := fun p w =>
    ((sim_lookup_lastmod p (sim_lastmod w),
      sim_result p (sim_fail_lastmod w) "stat failed"), w);
  np_Purge := fun p w => (sim_result p (sim_fail_purge w) "purge failed", w);
  nil_Open := sim_nil_call;
  nil_WriteShard := fun _ _ => sim_nil_call;
  metastore_Node := sim_Node;
  time_Now := fun w => (sim_now w, w);
  range_order := sim_range;
  range_order_perm := sim_range_perm
|}.

(** A file system on which nothing can be made, and one on which nothing
    can be listed. *)
Definition sim_mkdir_denied (path : string) (w : Sim) : option error * Sim :=
  (Some "permission denied", w).
Definition sim_readdir_fails (path : string) (w : Sim)
  : (list string * option error) * Sim :=
  (([], Some "input/output error"), w).


(** The calls that [WriteShard] can make: the counters, the mutex, the
    construction of a processor, [Open] on a nil pointer and [WriteShard]
    on a processor. *)
Definition WriteShard_event (e : event) : Prop :=
  match e with
  | EvStatAdd _ _ | EvRLock | EvRUnlock | EvLock | EvUnlock
  | EvNewNodeProcessor _ _ _ | EvOpen None _ | EvWriteShard _ _ _ _ => True
  | _ => False
  end.
(** ** Properties *)

Ltac unfold_go :=
  unfold Logger_Println, statMap_Add, close_closing,
    processors_get, processors_set, processors_delete, processors_range,
    processor_Open, processor_WriteShard, processor_Close, processor_Purge,
    processor_LastModified, new_NodeProcessor, Node, Now, MkdirAll, ReadDir
    in *;
  unfold Logger_Print, set_closing, mu_Lock, mu_Unlock, mu_RLock, mu_RUnlock,
    wg_Add, wg_Done, wg_Wait in *;
  unfold bind, ret, defer, panic, call, call_res, emit, get_svc, set_svc in *.

Section Properties.
Context {W : Type} (E : Env W).

Lemma State_eta (st : State W) :
  {| svc := svc st; world := world st; trace := trace st |} = st.
Proof. by destruct st. Qed.

Lemma Service_eta (s : Service) :
  {| closing := closing s; processors := processors s;
     statMap := statMap s; cfg := cfg s |} = s.
Proof. by destruct s. Qed.

(** [Open] on a disabled service, in full. *)
Lemma Open_disabled (st : State W) :
  Enabled (cfg (svc st)) = false ->
  Open E st =
    (Val None,
     {| svc := svc st; world := world st;
        trace := trace st ++ [EvLock; EvUnlock] |}).
Proof.
  intros Hdis. unfold Open. unfold_go. simpl. rewrite Hdis. simpl.
  by rewrite <- app_assoc.
Qed.

End Properties.

(** C8: [Open] on a service whose configuration has [Enabled = false]
    returns success and has no other effect: the service (its processor
    map, its [closing] channel) and the world (the file system, the
    processors) are unchanged, and the only calls made are the lock and
    unlock of the mutex; no directory is created, no processor is
    constructed, no purge task is started. *)
Theorem Open_disabled_no_effect {W} (E : Env W) (st : State W) :
  Enabled (cfg (svc st)) = false ->
  fst (Open E st) = Val None /\
  svc (snd (Open E st)) = svc st /\
  world (snd (Open E st)) = world st /\
  new_events st (snd (Open E st)) [EvLock; EvUnlock].
Proof.
  intros Hdis. rewrite (Open_disabled E st Hdis). by repeat split.
Qed.

Lemma Open_disabled_no_effect_witness :
  let st := start (NewService (sim_config false))
                  (sim_world [("/var/hh", ["7"])] 0 [] []) in
  Enabled (cfg (svc st)) = false /\
  fst (Open SimEnv st) = Val None /\
  svc (snd (Open SimEnv st)) = svc st /\
  world (snd (Open SimEnv st)) = world st /\
  new_events st (snd (Open SimEnv st)) [EvLock; EvUnlock].
Proof.
  split; [reflexivity | apply Open_disabled_no_effect; reflexivity].
Defined.

(** *** Calls on a disabled service *)

Section Disabled.
Context {W : Type} (E : Env W).

Lemma do_call_disabled (c : Config) (call : api_call) (st : State W) :
  Enabled c = false ->
  svc st = NewService c ->
  fst (do_call E call st) = Val (disabled_result call) /\
  svc (snd (do_call E call st)) = NewService c.
Proof.
  intros Hdis Hsvc. destruct call as [| |shardID ownerID points]; simpl.
  - rewrite Open_disabled by (by rewrite Hsvc). by simpl.
  - unfold Close. unfold_go. simpl. rewrite Hsvc. by simpl.
  - unfold WriteShard. unfold_go. simpl. rewrite Hsvc. simpl.
    rewrite Hdis. by simpl.
Qed.

Lemma do_calls_disabled (c : Config) (cs : list api_call) :
  Enabled c = false ->
  forall st : State W,
    svc st = NewService c ->
    fst (do_calls E cs st) = Val (map disabled_result cs).
Proof.
  intros Hdis. induction cs as [|call rest IH]; intros st Hsvc; [done|].
  simpl. unfold bind.
  destruct (do_call_disabled c call st Hdis Hsvc) as [Hr Hs].
  destruct (do_call E call st) as [r st1]. simpl in Hr, Hs. subst r.
  specialize (IH st1 Hs).
  destruct (do_calls E rest st1) as [rs st2]. simpl in IH. by subst rs.
Qed.

End Disabled.

(** C5: on a service built by [NewService] from a configuration with
    [Enabled = false], whatever calls were made before, every [WriteShard]
    fails with [ErrHintedHandoffDisabled] while every [Open] and every
    [Close] succeeds. *)
Theorem disabled_service_calls {W} (E : Env W) (c : Config) (w : W)
    (cs : list api_call) :
  Enabled c = false ->
  fst (do_calls E cs (start (NewService c) w)) = Val (map disabled_result cs).
Proof.
  intros Hdis. by apply (do_calls_disabled E c).
Qed.

Lemma disabled_service_calls_witness :
  let c := sim_config false in
  let cs := [CallWriteShard 1 99 [MkPoint "p"]; CallOpen;
             CallWriteShard 1 99 []; CallClose; CallClose; CallOpen] in
  Enabled c = false /\
  fst (do_calls SimEnv cs (start (NewService c) (sim_world [] 0 [] [])))
  = Val [Some ErrHintedHandoffDisabled; None; Some ErrHintedHandoffDisabled;
         None; None; None].
Proof.
  split; [reflexivity|].
  exact (disabled_service_calls SimEnv (sim_config false) (sim_world [] 0 [] [])
           [CallWriteShard 1 99 [MkPoint "p"]; CallOpen;
            CallWriteShard 1 99 []; CallClose; CallClose; CallOpen]
           eq_refl).
Defined.

(** *** Stepping through monadic code *)

Section Frame.
Context {W : Type} (E : Env W) (Q : event -> Prop).

Lemma bind_val {A B} (m : M W A) (k : A -> M W B) st a st1 :
  m st = (Val a, st1) -> bind m k st = k a st1.
Proof. unfold bind. by intros ->. Qed.

Lemma bind_assoc {A B C} (m : M W A) (k : A -> M W B) (k' : B -> M W C) st :
  bind (bind m k) k' st = bind m (fun a => bind (k a) k') st.
Proof. unfold bind. by destruct (m st) as [[a|msg] st1]. Qed.



Lemma frame_refl (st : State W) : frame Q st st.
Proof. repeat split. exists []. by rewrite app_nil_r. Qed.

Lemma frame_event (st : State W) w e :
  Q e ->
  frame Q st {| svc := svc st; world := w; trace := trace st ++ [e] |}.
Proof. intros He. repeat split. exists [e]. split; [done|]. by constructor. Qed.

Lemma frame_trans (st1 st2 st3 : State W) : frame Q st1 st2 -> frame Q st2 st3 -> frame Q st1 st3.
Proof.
  intros (Hs1 & Hc1 & evs1 & Ht1 & Hq1) (Hs2 & Hc2 & evs2 & Ht2 & Hq2).
  repeat split; [congruence | congruence |].
  exists (evs1 ++ evs2). split; [by rewrite Ht2, Ht1, app_assoc|].
  by apply Forall_app.
Qed.

Lemma frame_same (st st' : State W) :
  statMap (svc st') = statMap (svc st) ->
  cfg (svc st') = cfg (svc st) ->
  trace st' = trace st ->
  frame Q st st'.
Proof.
  intros ? ? Ht. repeat split; [done..|]. exists []. by rewrite app_nil_r.
Qed.

Lemma preserves_ret {A} (a : A) : preserves Q (ret (W := W) a).
Proof. intros st. apply frame_refl. Qed.

Lemma preserves_panic {A} msg : preserves Q (panic (W := W) (A := A) msg).
Proof. intros st. apply frame_refl. Qed.

Lemma preserves_bind {A B} (m : M W A) (k : A -> M W B) :
  preserves Q m -> (forall a, preserves Q (k a)) -> preserves Q (bind m k).
Proof.
  intros Hm Hk st. unfold bind. specialize (Hm st).
  destruct (m st) as [[a|msg] st1]; [|done].
  eapply frame_trans; [exact Hm | apply Hk].
Qed.

Lemma preserves_defer {A} (d : M W unit) (m : M W A) :
  preserves Q d -> preserves Q m -> preserves Q (defer d m).
Proof.
  intros Hd Hm st. unfold defer. specialize (Hm st).
  destruct (m st) as [r st1]. specialize (Hd st1).
  destruct (d st1) as [u st2]. simpl in *. by eapply frame_trans.
Qed.

Lemma preserves_emit e : Q e -> preserves Q (emit (W := W) e).
Proof. intros He st. by apply frame_event. Qed.

Lemma preserves_get_svc : preserves Q (get_svc (W := W)).
Proof. intros st. apply frame_refl. Qed.

Lemma preserves_call {A} (f : W -> A * W) ev :
  (forall a, Q (ev a)) -> preserves Q (call f ev).
Proof.
  intros He st. unfold call. destruct (f (world st)) as [a w'].
  by apply frame_event.
Qed.

Lemma preserves_call_res {A} (f : W -> Res A * W) ev :
  (forall r, Q (ev r)) -> preserves Q (call_res f ev).
Proof.
  intros He st. unfold call_res. destruct (f (world st)) as [a w'].
  by apply frame_event.
Qed.

Lemma preserves_set_closing c : preserves Q (set_closing (W := W) c).
Proof. intros st. by apply frame_same. Qed.

Lemma preserves_processors_get k : preserves Q (processors_get (W := W) k).
Proof. intros st. apply frame_refl. Qed.

Lemma preserves_processors_set k v : preserves Q (processors_set (W := W) k v).
Proof.
  intros st. unfold processors_set, bind, get_svc.
  destruct (processors (svc st)); by apply frame_same.
Qed.

Lemma preserves_processors_delete k : preserves Q (processors_delete (W := W) k).
Proof.
  intros st. unfold processors_delete, bind, get_svc.
  destruct (processors (svc st)); by apply frame_same.
Qed.

Lemma preserves_processors_range : preserves Q (processors_range E).
Proof. intros st. apply frame_refl. Qed.

Lemma preserves_close_closing :
  Q EvCloseChan -> preserves Q (close_closing (W := W)).
Proof.
  intros He st. unfold close_closing, bind, get_svc.
  destruct (closing (svc st)) as [[|]|]; try by apply frame_same.
  repeat split. exists [EvCloseChan]. split; [done|]. by constructor.
Qed.

End Frame.

Ltac preserves_step :=
  first
    [ apply preserves_defer
    | apply preserves_ret
    | apply preserves_panic
    | apply preserves_emit; [done]
    | apply preserves_get_svc
    | apply preserves_call; [by intros ?]
    | apply preserves_call_res; [by intros ?]
    | apply preserves_set_closing
    | apply preserves_processors_get
    | apply preserves_processors_set
    | apply preserves_processors_delete
    | apply preserves_processors_range
    | apply preserves_close_closing; [done]
    | apply preserves_bind; [|intros ?]
    | match goal with
      | |- preserves _ (match ?x with _ => _ end) => destruct x
      | |- preserves _ (if ?b then _ else _) => destruct b
      end ].

Ltac preserves_tac :=
  unfold mu_Lock, mu_Unlock, mu_RLock, mu_RUnlock, wg_Add, wg_Done, wg_Wait,
    Logger_Println, Logger_Print, processor_Open, processor_WriteShard,
    processor_Close, processor_Purge, processor_LastModified,
    new_NodeProcessor, Node, Now, MkdirAll, ReadDir;
  repeat preserves_step.

Lemma wrap_int64_id (z : Z) : int64 z -> wrap_int64 z = z.
Proof.
  unfold int64, wrap_int64. intros H.
  rewrite Z.mod_small; lia.
Qed.

Section Counters.
Context {W : Type} (E : Env W).

Lemma statMap_Add_eq key delta (st : State W) :
  statMap_Add key delta st =
    (Val tt,
     {| svc := {| closing := closing (svc st);
                  processors := processors (svc st);
                  statMap := <[key := wrap_int64 (stat (svc st) key + delta)]>
                               (statMap (svc st));
                  cfg := cfg (svc st) |};
        world := world st;
        trace := trace st ++ [EvStatAdd key delta] |}).
Proof. reflexivity. Qed.

Lemma WriteShard_disabled (st : State W) shardID ownerID points :
  Enabled (cfg (svc st)) = false ->
  WriteShard E shardID ownerID points st = (Val (Some ErrHintedHandoffDisabled), st).
Proof.
  intros Hdis. unfold WriteShard.
  erewrite bind_val by reflexivity. by rewrite Hdis.
Qed.

Lemma WriteShard_enabled_counters (st : State W) shardID ownerID points :
  Enabled (cfg (svc st)) = true ->
  let st' := snd (WriteShard E shardID ownerID points st) in
  let n := Z.of_nat (length points) in
  stat (svc st') writeShardReq = wrap_int64 (stat (svc st) writeShardReq + 1) /\
  stat (svc st') writeShardReqPoints
    = wrap_int64 (stat (svc st) writeShardReqPoints + n) /\
  exists evs,
    trace st' =
      trace st ++ EvStatAdd writeShardReq 1 :: EvStatAdd writeShardReqPoints n
               :: EvRLock :: evs.
Proof.
  intros Hen. unfold WriteShard.
  erewrite bind_val by reflexivity. rewrite Hen. cbn [negb].
  erewrite bind_val by apply statMap_Add_eq.
  erewrite bind_val by apply statMap_Add_eq.
  erewrite bind_val by reflexivity.
  match goal with
  | |- context [snd (?m ?st0)] =>
      assert (preserves (fun _ => True) m) as Hrest by preserves_tac;
      destruct (Hrest st0) as (Hstat & _ & evs & Htr & _);
      generalize dependent (snd (m st0))
  end.
  intros stF Hstat Htr. cbv zeta. simpl in Hstat, Htr.
  unfold stat in *. simpl in Hstat. rewrite Hstat.
  rewrite (lookup_insert_ne _ writeShardReq writeShardReqPoints) by done.
  rewrite (lookup_insert_ne _ writeShardReqPoints writeShardReq) by done.
  rewrite !lookup_insert_eq. simpl.
  split; [done|]. split; [done|].
  exists evs. rewrite Htr. by rewrite <- !app_assoc.
Qed.

End Counters.

(** C10: on an enabled service a call to [WriteShard] adds 1 to the
    [write_shard_req] counter and the number of points to
    [write_shard_req_points] (int64 additions, exact as long as the counters
    do not overflow); both additions come first, before the read lock is
    taken for the lookup of the processor, and they stay whatever the call
    then returns, an error or a panic included.  On a disabled service the
    call changes no counter. *)
Theorem WriteShard_counts_attempts {W} (E : Env W) (st : State W)
    (shardID ownerID : N) (points : list Point) :
  let st' := snd (WriteShard E shardID ownerID points st) in
  let n := Z.of_nat (length points) in
  (Enabled (cfg (svc st)) = true ->
   int64 (stat (svc st) writeShardReq + 1) ->
   int64 (stat (svc st) writeShardReqPoints + n) ->
   stat (svc st') writeShardReq = stat (svc st) writeShardReq + 1 /\
   stat (svc st') writeShardReqPoints = stat (svc st) writeShardReqPoints + n /\
   exists evs,
     new_events st st'
       (EvStatAdd writeShardReq 1 :: EvStatAdd writeShardReqPoints n
          :: EvRLock :: evs)) /\
  (Enabled (cfg (svc st)) = false ->
   statMap (svc st') = statMap (svc st) /\ new_events st st' []).
Proof.
  cbv zeta. split.
  - intros Hen H1 H2.
    destruct (WriteShard_enabled_counters E st shardID ownerID points Hen)
      as (Hreq & Hpts & Hev).
    rewrite Hreq, Hpts, !wrap_int64_id by done. done.
  - intros Hdis. rewrite WriteShard_disabled by done. simpl.
    split; [done|]. unfold new_events. by rewrite app_nil_r.
Qed.

Lemma WriteShard_counts_attempts_witness :
  let on := start (NewService (sim_config true)) (sim_world [] 0 [] []) in
  let off := start (NewService (sim_config false)) (sim_world [] 0 [] []) in
  let points := [MkPoint "p1"; MkPoint "p2"] in
  (Enabled (cfg (svc on)) = true /\
   int64 (stat (svc on) writeShardReq + 1) /\
   int64 (stat (svc on) writeShardReqPoints + 2) /\
   fst (WriteShard SimEnv 1 99 points on)
     = Panic "invalid memory address or nil pointer dereference" /\
   stat (svc (snd (WriteShard SimEnv 1 99 points on))) writeShardReq = 0 + 1 /\
   stat (svc (snd (WriteShard SimEnv 1 99 points on))) writeShardReqPoints
     = 0 + 2) /\
  (Enabled (cfg (svc off)) = false /\
   statMap (svc (snd (WriteShard SimEnv 1 99 points off))) = statMap (svc off)).
Proof.
  cbv zeta.
  assert (int64 (0 + 1) /\ int64 (0 + 2)) as [H1 H2] by (unfold int64; lia).
  split.
  - split; [reflexivity|]. split; [exact H1|]. split; [exact H2|].
    split; [reflexivity|].
    destruct (WriteShard_counts_attempts SimEnv
                (start (NewService (sim_config true)) (sim_world [] 0 [] []))
                1 99 [MkPoint "p1"; MkPoint "p2"]) as [Hon _].
    destruct (Hon eq_refl H1 H2) as (Hreq & Hpts & _).
    split; [exact Hreq | exact Hpts].
  - split; [reflexivity|].
    destruct (WriteShard_counts_attempts SimEnv
                (start (NewService (sim_config false)) (sim_world [] 0 [] []))
                1 99 [MkPoint "p1"; MkPoint "p2"]) as [_ Hoff].
    exact (proj1 (Hoff eq_refl)).
Defined.

Section Steps.
Context {W : Type}.

Lemma emit_eq e (st : State W) :
  emit e st = (Val tt, {| svc := svc st; world := world st;
                          trace := trace st ++ [e] |}).
Proof. reflexivity. Qed.

Lemma call_eq {A} (f : W -> A * W) (ev : A -> event) (st : State W) :
  call f ev st =
    (Val (fst (f (world st))),
     {| svc := svc st; world := snd (f (world st));
        trace := trace st ++ [ev (fst (f (world st)))] |}).
Proof. unfold call. by destruct (f (world st)). Qed.

End Steps.

Ltac go_step :=
  erewrite bind_val by (first [reflexivity | apply call_eq]);
  cbn [svc world trace fst snd closing processors statMap cfg].

Section Startup.
Context {W : Type} (E : Env W).

(** [Open] on an enabled service whose root directory has no entry. *)
Lemma Open_empty_dir (st : State W) :
  Enabled (cfg (svc st)) = true ->
  fst (os_MkdirAll E (Dir (cfg (svc st))) (world st)) = None ->
  fst (ioutil_ReadDir E (Dir (cfg (svc st)))
         (snd (os_MkdirAll E (Dir (cfg (svc st))) (world st)))) = ([], None) ->
  fst (Open E st) = Val None /\
  svc (snd (Open E st)) =
    {| closing := Some ChanOpen; processors := processors (svc st);
       statMap := statMap (svc st); cfg := cfg (svc st) |} /\
  trace (snd (Open E st)) =
    trace st ++
      [EvLock; EvLog "Starting hinted handoff service";
       EvLog ("Using data dir: " +:+ Dir (cfg (svc st)));
       EvMkdirAll (Dir (cfg (svc st))) None;
       EvReadDir (Dir (cfg (svc st))) [] None;
       EvWgAdd 1; EvGoPurge; EvUnlock].
Proof.
  intros Hen Hmk Hrd. unfold Open, MkdirAll, ReadDir.
  go_step. unfold defer.
  go_step. rewrite Hen. cbn [negb].
  do 4 go_step. cbn [world svc cfg]. rewrite Hmk.
  go_step. cbn [world fst snd]. rewrite Hrd. cbn [fst snd Open_loop].
  do 3 go_step. simpl.
  repeat split. by rewrite <- !app_assoc.
Qed.

End Startup.

(** C7: [Open] on an enabled service with no processor yet, whose root
    directory exists or is created by [os.MkdirAll] and has no entry,
    returns success and leaves the processor map without entries; no
    processor is constructed and the purge task is started. *)
Theorem Open_empty_root {W} (E : Env W) (st : State W) :
  Enabled (cfg (svc st)) = true ->
  entries (svc st) = [] ->
  fst (os_MkdirAll E (Dir (cfg (svc st))) (world st)) = None ->
  fst (ioutil_ReadDir E (Dir (cfg (svc st)))
         (snd (os_MkdirAll E (Dir (cfg (svc st))) (world st)))) = ([], None) ->
  fst (Open E st) = Val None /\
  entries (svc (snd (Open E st))) = [] /\
  new_events st (snd (Open E st))
    [EvLock; EvLog "Starting hinted handoff service";
     EvLog ("Using data dir: " +:+ Dir (cfg (svc st)));
     EvMkdirAll (Dir (cfg (svc st))) None;
     EvReadDir (Dir (cfg (svc st))) [] None;
     EvWgAdd 1; EvGoPurge; EvUnlock].
Proof.
  intros Hen Hent Hmk Hrd.
  destruct (Open_empty_dir E st Hen Hmk Hrd) as (Hr & Hs & Ht).
  split; [done|]. split; [|done].
  rewrite Hs. exact Hent.
Qed.

Lemma Open_empty_root_witness :
  let existing := start (NewService (sim_config true))
                        (sim_world [("/var/hh", [])] 0 [] []) in
  let missing := start (NewService (sim_config true)) (sim_world [] 0 [] []) in
  (fst (Open SimEnv existing) = Val None /\
   entries (svc (snd (Open SimEnv existing))) = []) /\
  (fst (Open SimEnv missing) = Val None /\
   entries (svc (snd (Open SimEnv missing))) = [] /\
   sim_dirs (world (snd (Open SimEnv missing))) !! "/var/hh" = Some []).
Proof.
  cbv zeta. split.
  - destruct (Open_empty_root SimEnv
                (start (NewService (sim_config true))
                       (sim_world [("/var/hh", [])] 0 [] []))
                eq_refl eq_refl eq_refl eq_refl) as (Hr & He & _).
    split; [exact Hr | exact He].
  - destruct (Open_empty_root SimEnv
                (start (NewService (sim_config true)) (sim_world [] 0 [] []))
                eq_refl eq_refl eq_refl eq_refl) as (Hr & He & _).
    split; [exact Hr|]. split; [exact He | reflexivity].
Defined.

(** *** Lazy creation in [WriteShard] *)

Section Emits.
Context {W : Type} (E : Env W) (Q : event -> Prop).


Lemma emits_preserves {A} (m : M W A) : preserves Q m -> emits Q m.
Proof. intros Hm st. by destruct (Hm st) as (_ & _ & Hev). Qed.

Lemma emits_bind {A B} (m : M W A) (k : A -> M W B) :
  emits Q m -> (forall a, emits Q (k a)) -> emits Q (bind m k).
Proof.
  intros Hm Hk st. unfold bind. destruct (Hm st) as (evs1 & Ht1 & Hq1).
  destruct (m st) as [[a|msg] st1]; simpl in *; [|by exists evs1].
  destruct (Hk a st1) as (evs2 & Ht2 & Hq2).
  exists (evs1 ++ evs2). split; [by rewrite Ht2, Ht1, app_assoc|].
  by apply Forall_app.
Qed.

Lemma emits_statMap_Add key delta :
  Q (EvStatAdd key delta) -> emits Q (statMap_Add (W := W) key delta).
Proof.
  intros He st. rewrite statMap_Add_eq. simpl.
  exists [EvStatAdd key delta]. split; [done|]. by constructor.
Qed.

End Emits.


(** Whatever the collaborators do, [WriteShard] never calls [Open] on a
    processor: the one it constructs is not opened. *)
Lemma WriteShard_opens_no_processor {W} (E : Env W) shardID ownerID points :
  emits not_Open_of_processor (WriteShard E shardID ownerID points).
Proof.
  unfold WriteShard.
  apply emits_bind; [apply emits_preserves, preserves_get_svc|]. intros s.
  destruct (negb (Enabled (cfg s))).
  { apply emits_preserves, preserves_ret. }
  apply emits_bind; [by apply emits_statMap_Add|]. intros _.
  apply emits_bind; [by apply emits_statMap_Add|]. intros _.
  apply emits_preserves. preserves_tac.
Qed.

(** C1 fails on the code.  On a service started by [NewService] and [Open]
    over an empty root directory, [WriteShard(1, 99, [p])] constructs the
    processor for node 99 and then calls [Open] on the nil pointer left by
    the lookup: the call panics and nothing is written.  Where a nil
    receiver is tolerated and the map was made, the constructed processor is
    inserted and written to without having been opened. *)
Theorem WriteShard_opens_nil_not_new_processor :
  let p := MkPoint "p" in
  (let r := do_calls SimEnv [CallOpen; CallWriteShard 1 99 [p]]
              (start (NewService (sim_config true))
                     (sim_world [("/var/hh", [])] 0 [] [])) in
   fst r = Panic "invalid memory address or nil pointer dereference" /\
   entries (svc (snd r)) = [] /\
   trace (snd r) =
     [EvLock; EvLog "Starting hinted handoff service";
      EvLog "Using data dir: /var/hh"; EvMkdirAll "/var/hh" None;
      EvReadDir "/var/hh" [] None; EvWgAdd 1; EvGoPurge; EvUnlock;
      EvStatAdd writeShardReq 1; EvStatAdd writeShardReqPoints 1;
      EvRLock; EvRUnlock; EvLock;
      EvNewNodeProcessor 99 "/var/hh/99" 1%positive;
      EvOpen None (Panic "invalid memory address or nil pointer dereference");
      EvUnlock]) /\
  (let r := WriteShard SimEnv 1 99 [p]
              (start (sim_service []) (sim_world_nil_ok [("/var/hh", [])])) in
   fst r = Val None /\
   entries (svc (snd r)) = [(99%N, 1%positive)] /\
   trace (snd r) =
     [EvStatAdd writeShardReq 1; EvStatAdd writeShardReqPoints 1;
      EvRLock; EvRUnlock; EvLock;
      EvNewNodeProcessor 99 "/var/hh/99" 1%positive;
      EvOpen None (Val None);
      EvUnlock;
      EvWriteShard (Some 1%positive) 1 [p] (Val None)]).
Proof.
  repeat split; vm_compute; reflexivity.
Qed.

(** C3 fails on the code.  [NewService] leaves the processor map nil, so
    [Open] over a root directory with the entries [7] and [tmp] constructs
    and opens the processor of node 7 and then panics on the assignment
    into the map: no processor is recorded. *)
Theorem Open_panics_on_nil_map :
  let r := Open SimEnv
             (start (NewService (sim_config true))
                    (sim_world [("/var/hh", ["7"; "tmp"])] 0 [] [])) in
  fst r = Panic "assignment to entry in nil map" /\
  entries (svc (snd r)) = [] /\
  trace (snd r) =
    [EvLock; EvLog "Starting hinted handoff service";
     EvLog "Using data dir: /var/hh"; EvMkdirAll "/var/hh" None;
     EvReadDir "/var/hh" ["7"; "tmp"] None;
     EvNewNodeProcessor 7 "/var/hh/7" 1%positive;
     EvOpen (Some 1%positive) (Val None); EvUnlock].
Proof.
  repeat split; vm_compute; reflexivity.
Qed.

(** *** [Close] *)

Section Closing.
Context {W : Type} (E : Env W).

Lemma range_entries_perm (st : State W) :
  range_entries E st ≡ₚ entries (svc st).
Proof.
  unfold range_entries, entries.
  destruct (processors (svc st)); [apply range_order_perm | done].
Qed.

(** The loop of [Close]: either every processor closes, or the loop
    returns the first error and the processors after it are not closed. *)
Lemma Close_loop_spec (ps : list (N * addr)) (st : State W) :
  (exists w',
     Close_loop E ps st =
       (Val None,
        {| svc := svc st; world := w';
           trace := trace st ++ map close_ok ps |})) \/
  (exists closed k p rest e w',
     ps = closed ++ (k, p) :: rest /\
     Close_loop E ps st =
       (Val (Some e),
        {| svc := svc st; world := w';
           trace := trace st ++ map close_ok closed ++ [EvClose p (Some e)] |})).
Proof.
  revert st. induction ps as [|[k p] rest IH]; intros st.
  - left. exists (world st). simpl. rewrite app_nil_r. by destruct st.
  - simpl. unfold processor_Close. go_step.
    destruct (fst (np_Close E p (world st))) as [e|] eqn:Hclose.
    + right. exists [], k, p, rest, e. eexists. split; [done|]. reflexivity.
    + match goal with |- context [Close_loop E rest ?st1] =>
        destruct (IH st1) as [(w' & Heq)|(closed & k' & p' & rest' & e & w' & Hps & Heq)]
      end.
      * left. exists w'. rewrite Heq. simpl. unfold close_ok at 2. simpl.
        by rewrite <- app_assoc.
      * right. exists ((k, p) :: closed), k', p', rest', e, w'.
        split; [by rewrite Hps|]. rewrite Heq. simpl.
        unfold close_ok at 2. simpl. by rewrite <- app_assoc.
Qed.

(** [Close] in full: success, first error, or a [closing] channel that was
    already closed. *)
Lemma Close_spec (st : State W) :
  (exists w',
     Close E st =
       (Val None,
        {| svc := {| closing := None; processors := processors (svc st);
                     statMap := statMap (svc st); cfg := cfg (svc st) |};
           world := w';
           trace := trace st ++ EvLock :: map close_ok (range_entries E st)
                      ++ closing_signal (svc st) ++ [EvWgWait; EvUnlock] |}) /\
     closing (svc st) <> Some ChanClosed) \/
  (exists closed k p rest e w',
     range_entries E st = closed ++ (k, p) :: rest /\
     Close E st =
       (Val (Some e),
        {| svc := svc st; world := w';
           trace := trace st ++ EvLock :: map close_ok closed
                      ++ [EvClose p (Some e); EvUnlock] |})) \/
  (closing (svc st) = Some ChanClosed /\
   fst (Close E st) = Panic "close of closed channel").
Proof.
  unfold Close. go_step. unfold defer. go_step.
  set (st1 := {| svc := svc st; world := world st;
                 trace := trace st ++ [EvLock] |}).
  change (range_entries E st1) with (range_entries E st).
  destruct (Close_loop_spec (range_entries E st) st1)
    as [(w' & Heq)|(closed & k & p & rest & e & w' & Hps & Heq)];
    rewrite (bind_val _ _ _ _ _ Heq); subst st1;
    cbn [svc world trace fst snd closing processors statMap cfg].
  - destruct (closing (svc st)) as [[|]|] eqn:Hc; go_step; rewrite Hc.
    + left. exists w'. split; [|done]. unfold close_closing.
      rewrite bind_assoc. go_step. rewrite Hc. rewrite bind_assoc. repeat go_step. unfold ret. simpl.
      unfold closing_signal. rewrite Hc. simpl.
      by rewrite <- !app_assoc.
    + right. right. split; [done|]. unfold close_closing.
      rewrite bind_assoc. go_step. rewrite Hc. by unfold panic, bind.
    + left. exists w'. split; [|done].
      repeat go_step. unfold ret. simpl.
      unfold closing_signal. rewrite Hc. simpl.
      by rewrite <- !app_assoc.
  - right. left. exists closed, k, p, rest, e, w'. split; [done|].
    unfold ret. simpl. by rewrite <- !app_assoc.
Qed.

End Closing.

Lemma close_ok_no_signal (ps : list (N * addr)) :
  ~ EvCloseChan ∈ map close_ok ps.
Proof.
  induction ps as [|kp ps IH]; simpl; intros Hin.
  - by apply elem_of_nil in Hin.
  - apply elem_of_cons in Hin as [?|Hin]; [done | by apply IH].
Qed.

(** C4 as stated fails: with two processors whose [Close] fails, [Close]
    on the service closes only the first one visited, whichever the order
    of the visit, returns its error, and neither signals the purge task nor
    waits for it. *)
Lemma Close_closes_all_counterexample :
  let st := fun rev_range =>
    start (sim_service [(1%N, 11%positive); (2%N, 12%positive)])
          (sim_world_bad_close [11%positive; 12%positive] rev_range) in
  fst (Close SimEnv (st false)) = Val (Some "close failed") /\
  trace (snd (Close SimEnv (st false))) =
    [EvLock; EvClose 12%positive (Some "close failed"); EvUnlock] /\
  fst (Close SimEnv (st true)) = Val (Some "close failed") /\
  trace (snd (Close SimEnv (st true))) =
    [EvLock; EvClose 11%positive (Some "close failed"); EvUnlock] /\
  ~ Close_closes_all SimEnv (st false) /\
  ~ Close_closes_all SimEnv (st true).
Proof.
  cbv zeta.
  assert (forall l : list event, (forall e, e ∈ l -> e <> EvWgWait) ->
                                 ~ EvWgWait ∈ l) as Hnot.
  { intros l Hl Hin. by apply (Hl _ Hin). }
  do 4 (split; [vm_compute; reflexivity|]).
  split; intros (_ & _ & Hwait); revert Hwait; apply Hnot;
    intros e He; vm_compute in He;
    repeat (apply elem_of_cons in He as [->|He]; [discriminate|]);
    by apply elem_of_nil in He.
Qed.

(** C4, amended: [Close] closes the processors of the map one after the
    other, in the order of the range, and returns the first error a
    processor's [Close] returns, at once: the processors after it are not
    closed, the purge task is neither signalled nor waited for, and the
    service is unchanged.  When every processor closes, [Close] signals the
    purge task if [closing] is not nil, waits, sets [closing] to nil and
    succeeds.  A [Close] called when [closing] is nil, as after a successful
    [Close], sends no signal, leaves the service as it is and does not
    panic. *)
Theorem Close_returns_first_error {W} (E : Env W) (st : State W) :
  let ps := range_entries E st in
  let r := Close E st in
  ps ≡ₚ entries (svc st) /\
  ((fst r = Val None /\
    closing (svc (snd r)) = None /\
    processors (svc (snd r)) = processors (svc st) /\
    new_events st (snd r)
      (EvLock :: map close_ok ps ++ closing_signal (svc st)
         ++ [EvWgWait; EvUnlock])) \/
   (exists closed k p rest e,
      ps = closed ++ (k, p) :: rest /\
      fst r = Val (Some e) /\
      svc (snd r) = svc st /\
      new_events st (snd r)
        (EvLock :: map close_ok closed ++ [EvClose p (Some e); EvUnlock])) \/
   (closing (svc st) = Some ChanClosed /\
    fst r = Panic "close of closed channel")) /\
  (closing (svc st) = None ->
   svc (snd r) = svc st /\
   (forall msg, fst r <> Panic msg) /\
   exists evs, new_events st (snd r) evs /\ ~ EvCloseChan ∈ evs).
Proof.
  cbv zeta. split; [apply range_entries_perm|].
  destruct (Close_spec E st)
    as [(w' & Heq & Hc)|[(closed & k & p & rest & e & w' & Hps & Heq)|(Hc & Hp)]].
  - split.
    + left. rewrite Heq. by repeat split.
    + intros Hnil. rewrite Heq. simpl. split.
      { rewrite <- Hnil. apply Service_eta. }
      split; [done|]. eexists. split; [reflexivity|].
      unfold closing_signal. rewrite Hnil. simpl.
      intros Hin. apply elem_of_cons in Hin as [?|Hin]; [done|].
      apply elem_of_app in Hin as [Hin|Hin];
        [by apply close_ok_no_signal in Hin|].
      repeat (apply elem_of_cons in Hin as [?|Hin]; [done|]).
      by apply elem_of_nil in Hin.
  - split.
    + right. left. exists closed, k, p, rest, e. rewrite Heq. by repeat split.
    + intros Hnil. rewrite Heq. simpl. split; [done|]. split; [done|].
      eexists. split; [reflexivity|].
      intros Hin. apply elem_of_cons in Hin as [?|Hin]; [done|].
      apply elem_of_app in Hin as [Hin|Hin];
        [by apply close_ok_no_signal in Hin|].
      repeat (apply elem_of_cons in Hin as [?|Hin]; [done|]).
      by apply elem_of_nil in Hin.
  - split; [by right; right|]. intros Hnil. congruence.
Qed.

Lemma Close_returns_first_error_witness :
  let st := start (sim_service [(1%N, 11%positive); (2%N, 12%positive)])
                  (sim_world [] 0 [] []) in
  let st1 := snd (Close SimEnv st) in
  fst (Close SimEnv st) = Val None /\
  trace st1 = [EvLock; EvClose 12%positive None; EvClose 11%positive None;
               EvCloseChan; EvWgWait; EvUnlock] /\
  closing (svc st1) = None /\
  svc (snd (Close SimEnv st1)) = svc st1 /\
  fst (Close SimEnv st1) = Val None.
Proof.
  cbv zeta. split; [reflexivity|]. split; [reflexivity|].
  split; [reflexivity|].
  destruct (Close_returns_first_error SimEnv
              (snd (Close SimEnv
                      (start (sim_service [(1%N, 11%positive); (2%N, 12%positive)])
                             (sim_world [] 0 [] [])))))
    as (_ & _ & Hsecond).
  split; [exact (proj1 (Hsecond eq_refl)) | reflexivity].
Defined.

(** *** The purge cycle *)

Section Purge.
Context {W : Type} (E : Env W).

Lemma processors_delete_eq k (st : State W) :
  processors_delete k st =
    (Val tt, {| svc := delete_processor k (svc st); world := world st;
                trace := trace st |}).
Proof.
  unfold processors_delete, delete_processor. go_step.
  destruct st as [[c [m|] sm cf] w tr]; reflexivity.
Qed.

(** One visit of the loop of a purge cycle. *)
Lemma purge_processor_spec (k : N) (v : addr) (st : State W) :
  exists block del w',
    visit (MaxAge (cfg (svc st))) k v block del /\
    purge_processor E k v st =
      (Val tt,
       {| svc := if del then delete_processor k (svc st) else svc st;
          world := w'; trace := trace st ++ block |}).
Proof.
  unfold purge_processor, processor_LastModified, Node, Now, processor_Close,
    processor_Purge, Logger_Println, Logger_Print.
  go_step.
  destruct (np_LastModified E v (world st)) as [[lm [e|]] w1]; simpl.
  { eexists _, false, _. split; [apply (visit_LastModified_error _ _ _ lm e)|].
    unfold emit. simpl. by rewrite <- !app_assoc. }
  go_step.
  destruct (metastore_Node E k w1) as [[ni [e|]] w2]; simpl.
  { eexists _, false, _. split; [apply (visit_Node_error _ _ _ lm ni e)|].
    unfold emit. simpl. by rewrite <- !app_assoc. }
  destruct ni as [ni|].
  { eexists _, false, _. split; [apply (visit_active _ _ _ lm ni)|].
    unfold ret. simpl. by rewrite <- !app_assoc. }
  do 2 go_step.
  destruct (time_Now E w2) as [now w3]; simpl.
  change (Time_Before lm (Time_Add now (Duration_neg (MaxAge (cfg (svc st))))))
    with (aged (MaxAge (cfg (svc st))) lm now).
  destruct (aged (MaxAge (cfg (svc st))) lm now) eqn:Haged; simpl.
  2:{ eexists _, false, _. split; [by apply (visit_young _ _ _ lm now)|].
      unfold ret. simpl. by rewrite <- !app_assoc. }
  go_step.
  destruct (np_Close E v w3) as [[e|] w4]; simpl.
  { eexists _, false, _.
    split; [by apply (visit_Close_error _ _ _ lm now e)|].
    unfold emit. simpl. by rewrite <- !app_assoc. }
  go_step.
  destruct (np_Purge E v w4) as [[e|] w5]; simpl.
  { eexists _, false, _.
    split; [by apply (visit_Purge_error _ _ _ lm now e)|].
    unfold emit. simpl. by rewrite <- !app_assoc. }
  eexists _, true, _. split; [by apply (visit_purged _ _ _ lm now)|].
  rewrite processors_delete_eq. simpl. by rewrite <- !app_assoc.
Qed.

Lemma processor_of_delete_eq k s : processor_of (delete_processor k s) k = None.
Proof.
  unfold processor_of, delete_processor. simpl.
  destruct (processors s); simpl; [apply lookup_delete_eq | done].
Qed.

Lemma processor_of_delete_ne k k' s :
  k <> k' -> processor_of (delete_processor k s) k' = processor_of s k'.
Proof.
  intros Hne. unfold processor_of, delete_processor. simpl.
  destruct (processors s); simpl; [by apply lookup_delete_ne | done].
Qed.

(** The loop of a purge cycle over entries with distinct keys: it visits
    every entry, never stops early, and an entry is gone from the map
    afterwards exactly when its visit ended with the deletion. *)
Lemma purge_loop_spec (ps : list (N * addr)) (st : State W) :
  NoDup ps.*1 ->
  exists (bds : list (list event * bool)) s' w',
    purge_loop E ps st =
      (Val tt, {| svc := s'; world := w';
                  trace := trace st ++ concat bds.*1 |}) /\
    cfg s' = cfg (svc st) /\
    length ps = length bds /\
    (forall i kv bd,
       ps !! i = Some kv -> bds !! i = Some bd ->
       visit (MaxAge (cfg (svc st))) kv.1 kv.2 bd.1 bd.2 /\
       processor_of s' kv.1 =
         if bd.2 then None else processor_of (svc st) kv.1) /\
    (forall k, k ∉ ps.*1 -> processor_of s' k = processor_of (svc st) k).
Proof.
  revert st. induction ps as [|[k v] ps IH]; intros st Hnd.
  - exists [], (svc st), (world st). simpl. rewrite app_nil_r.
    split; [by destruct st|]. split; [done|]. split; [done|].
    split; [|done]. by intros [|?] ??.
  - rewrite fmap_cons in Hnd. apply NoDup_cons in Hnd as [Hk Hnd].
    destruct (purge_processor_spec k v st) as (block & del & w1 & Hvisit & Heq1).
    match type of Heq1 with _ = (_, ?st1') => set (st1 := st1') in * end.
    assert (cfg (svc st1) = cfg (svc st)) as Hcfg1 by (by destruct del).
    assert (forall k', k <> k' ->
              processor_of (svc st1) k' = processor_of (svc st) k') as Hne.
    { intros k' Hkk. subst st1. simpl. destruct del; [|done].
      by apply processor_of_delete_ne. }
    destruct (IH st1 Hnd) as (bds & s' & w' & Heq2 & Hcfg & Hlen & Hlook & Hother).
    exists ((block, del) :: bds), s', w'. simpl.
    rewrite (bind_val _ _ _ _ _ Heq1), Heq2. subst st1. simpl.
    rewrite <- app_assoc. split; [done|].
    split; [congruence|]. split; [by rewrite Hlen|]. split.
    + intros [|i] kv bd Hkv Hbd; simpl in *.
      * simplify_eq. simpl. split; [done|].
        rewrite (Hother k Hk). simpl. destruct del; [|done].
        apply processor_of_delete_eq.
      * destruct (Hlook i kv bd Hkv Hbd) as [Hv Hp]. simpl in Hv, Hp.
        rewrite Hcfg1 in Hv. split; [done|].
        rewrite Hp. destruct bd.2; [done|]. apply Hne.
        intros ->. apply Hk. apply list_elem_of_fmap.
        exists kv. split; [done|]. by eapply list_elem_of_lookup_2.
    + intros k' Hk'. apply not_elem_of_cons in Hk' as [Hkk Hk'].
      rewrite (Hother k' Hk'). by apply Hne.
Qed.

Lemma range_entries_NoDup (st : State W) : NoDup (range_entries E st).*1.
Proof.
  unfold range_entries. destruct (processors (svc st)) as [m|]; [|constructor].
  rewrite (range_order_perm E (map_to_list m) (world st)).
  apply NoDup_fst_map_to_list.
Qed.

Lemma range_entries_lookup (st : State W) k v :
  (k, v) ∈ range_entries E st -> processor_of (svc st) k = Some v.
Proof.
  unfold range_entries, processor_of.
  destruct (processors (svc st)) as [m|]; [|by intros ?%elem_of_nil].
  rewrite (range_order_perm E (map_to_list m) (world st)).
  by intros ?%elem_of_map_to_list.
Qed.

(** A purge cycle, as a list of visits between the lock and the unlock. *)
Lemma purge_cycle_spec (st : State W) :
  exists (bds : list (list event * bool)) s' w',
    purge_cycle E st =
      (Val tt, {| svc := s'; world := w';
                  trace := trace st ++ EvLock :: concat bds.*1 ++ [EvUnlock] |}) /\
    length (range_entries E st) = length bds /\
    (forall i kv bd,
       range_entries E st !! i = Some kv -> bds !! i = Some bd ->
       visit (MaxAge (cfg (svc st))) kv.1 kv.2 bd.1 bd.2 /\
       processor_of (svc st) kv.1 = Some kv.2 /\
       processor_of s' kv.1 = if bd.2 then None else Some kv.2) /\
    (forall k, k ∉ (range_entries E st).*1 ->
               processor_of s' k = processor_of (svc st) k).
Proof.
  unfold purge_cycle. go_step. unfold defer. go_step.
  set (st1 := {| svc := svc st; world := world st;
                 trace := trace st ++ [EvLock] |}).
  change (range_entries E st1) with (range_entries E st).
  destruct (purge_loop_spec (range_entries E st) st1 (range_entries_NoDup st))
    as (bds & s' & w' & Heq & _ & Hlen & Hlook & Hother).
  exists bds, s', w'. rewrite Heq. subst st1. simpl.
  rewrite <- !app_assoc. split; [done|]. split; [done|]. split; [|done].
  intros i [k v] bd Hkv Hbd. destruct (Hlook i (k, v) bd Hkv Hbd) as [Hv Hp].
  simpl in *. split; [done|].
  assert (processor_of (svc st) k = Some v) as Hin.
  { apply range_entries_lookup. by eapply list_elem_of_lookup_2. }
  split; [done|]. by rewrite Hp, Hin.
Qed.

End Purge.

(** *** What a visit can contain *)

Ltac inv_elem H :=
  repeat (apply elem_of_cons in H as [H|H]; [try discriminate; simplify_eq|]);
  try (by apply elem_of_nil in H).

(** The test of the code on the age implies the comparison on exact
    integers; the two differ only for a [MaxAge] of the least int64. *)
Lemma aged_lt maxAge lm now : aged maxAge lm now = true -> lm < now - maxAge.
Proof.
  unfold aged, Time_Before, Time_Add, Duration_neg.
  destruct (Z.eqb_spec maxAge (- 2 ^ 63)) as [->|Hne]; intros Hlt%Z.ltb_lt; lia.
Qed.

Lemma visit_calls_own maxAge k v block del :
  visit maxAge k v block del ->
  forall p r,
    EvClose p r ∈ block \/ EvPurge p r ∈ block ->
    p = v /\ check_passed maxAge k v block.
Proof.
  intros Hv p r [Hin|Hin]; inversion Hv; subst; inv_elem Hin;
    (split; [done|]); eexists _, _, _;
    (split; [reflexivity | by apply aged_lt]).
Qed.

Lemma visit_deleted maxAge k v block :
  visit maxAge k v block true ->
  check_passed maxAge k v block /\
  EvClose v None ∈ block /\ EvPurge v None ∈ block.
Proof.
  intros Hv. inversion Hv; subst. split.
  - eexists _, _, _. split; [reflexivity | by apply aged_lt].
  - split; set_solver.
Qed.

Lemma visit_error_kept maxAge k v block del :
  visit maxAge k v block del -> block_has_error k v block -> del = false.
Proof.
  intros Hv (e & [[lm Hin]|[[ni Hin]|[Hin|Hin]]]); inversion Hv; subst;
    try done; inv_elem Hin.
Qed.

Lemma visit_head maxAge k v block del :
  visit maxAge k v block del ->
  exists lm err, head block = Some (EvLastModified v lm err).
Proof. intros Hv. inversion Hv; subst; by eexists _, _. Qed.

Lemma visit_no_lock maxAge k v block del :
  visit maxAge k v block del ->
  Forall (fun e => e <> EvLock /\ e <> EvUnlock) block.
Proof.
  intros Hv. inversion Hv; subst; repeat constructor; discriminate.
Qed.

(** C2: in a purge cycle, which runs between the lock and the unlock of
    the mutex, the calls made are one block per entry of the map.  [Close]
    and [Purge] are only called on the processor of the block, and only in
    a block that starts with the check that passed: a last-modified time
    read without error, the metastore answering without error that the node
    is unknown, and a clock reading [now] with the last-modified time
    strictly before [now - MaxAge].  An entry is either still in the map
    after the cycle, or it is gone and its block passed the check and closed
    and purged the processor; no other key of the map changes. *)
Theorem purge_only_departed_and_aged {W} (E : Env W) (st : State W) :
  let st' := snd (purge_cycle E st) in
  let maxAge := MaxAge (cfg (svc st)) in
  range_entries E st ≡ₚ entries (svc st) /\
  exists blocks : list (list event),
    new_events st st' (EvLock :: concat blocks ++ [EvUnlock]) /\
    Forall2
      (fun kv block =>
         Forall (fun e => e <> EvLock /\ e <> EvUnlock) block /\
         (forall p r,
            EvClose p r ∈ block \/ EvPurge p r ∈ block ->
            p = kv.2 /\ check_passed maxAge kv.1 kv.2 block) /\
         (processor_of (svc st') kv.1 = Some kv.2 \/
          processor_of (svc st') kv.1 = None /\
          check_passed maxAge kv.1 kv.2 block /\
          EvClose kv.2 None ∈ block /\ EvPurge kv.2 None ∈ block))
      (range_entries E st) blocks /\
    (forall k, k ∉ (range_entries E st).*1 ->
               processor_of (svc st') k = processor_of (svc st) k).
Proof.
  cbv zeta. split; [apply range_entries_perm|].
  destruct (purge_cycle_spec E st)
    as (bds & s' & w' & Heq & Hlen & Hlook & Hother).
  exists bds.*1. rewrite Heq. simpl. split; [done|]. split; [|done].
  apply Forall2_same_length_lookup_2; [by rewrite length_fmap|].
  intros i kv block Hkv Hblock.
  rewrite list_lookup_fmap in Hblock.
  apply fmap_Some in Hblock as (bd & Hbd & ->).
  destruct (Hlook i kv bd Hkv Hbd) as (Hv & _ & Hp).
  split; [by eapply visit_no_lock|].
  split; [by eapply visit_calls_own|].
  rewrite Hp. destruct bd as [block [|]]; simpl in *; [right | by left].
  split; [done|]. by apply visit_deleted.
Qed.

Lemma purge_only_departed_and_aged_witness :
  let st := start (sim_service [(50%N, 1%positive); (51%N, 2%positive);
                                (52%N, 3%positive)])
                  (sim_world_purge [(1%positive, 1 * hour);
                                    (2%positive, 1 * hour);
                                    (3%positive, 3 * hour - 10 * minute)]
                                   [] [] [] []) in
  let st' := snd (purge_cycle SimEnv st) in
  (trace st' =
     [EvLock;
      EvLastModified 2%positive (1 * hour) None;
      EvNode 51 (Some {| ID := 51; Host := "" |}) None;
      EvLastModified 3%positive (3 * hour - 10 * minute) None;
      EvNode 52 None None; EvNow (3 * hour);
      EvLastModified 1%positive (1 * hour) None; EvNode 50 None None;
      EvNow (3 * hour); EvClose 1%positive None; EvPurge 1%positive None;
      EvUnlock] /\
   processor_of (svc st') 50 = None /\
   processor_of (svc st') 51 = Some 2%positive /\
   processor_of (svc st') 52 = Some 3%positive) /\
  exists blocks : list (list event),
    new_events st st' (EvLock :: concat blocks ++ [EvUnlock]) /\
    Forall2
      (fun kv block =>
         Forall (fun e => e <> EvLock /\ e <> EvUnlock) block /\
         (forall p r,
            EvClose p r ∈ block \/ EvPurge p r ∈ block ->
            p = kv.2 /\ check_passed hour kv.1 kv.2 block) /\
         (processor_of (svc st') kv.1 = Some kv.2 \/
          processor_of (svc st') kv.1 = None /\
          check_passed hour kv.1 kv.2 block /\
          EvClose kv.2 None ∈ block /\ EvPurge kv.2 None ∈ block))
      (range_entries SimEnv st) blocks /\
    (forall k, k ∉ (range_entries SimEnv st).*1 ->
               processor_of (svc st') k = processor_of (svc st) k).
Proof.
  cbv zeta. split.
  - repeat split; vm_compute; reflexivity.
  - exact (proj2 (purge_only_departed_and_aged SimEnv
                    (start (sim_service [(50%N, 1%positive); (51%N, 2%positive);
                                         (52%N, 3%positive)])
                           (sim_world_purge [(1%positive, 1 * hour);
                                             (2%positive, 1 * hour);
                                             (3%positive, 3 * hour - 10 * minute)]
                                            [] [] [] [])))).
Defined.

Lemma visit_passed_no_error maxAge k v block del :
  visit maxAge k v block del ->
  age_check_passed maxAge k v block ->
  ~ block_has_error k v block ->
  del = true.
Proof.
  intros Hv (lm' & now' & rest & Heq & Haged) Hne.
  inversion Hv as [lm e|lm ni e|lm ni|lm now Hy|lm now e Ha|lm now e Ha|lm now Ha];
    subst; simplify_eq; try done; try congruence;
    exfalso; apply Hne; exists e; set_solver.
Qed.

Lemma visit_lock_count maxAge k v block del :
  visit maxAge k v block del -> lock_count block = O.
Proof. intros Hv. by inversion Hv. Qed.

Lemma lock_count_app (a b : list event) :
  lock_count (a ++ b) = (lock_count a + lock_count b)%nat.
Proof.
  induction a as [|e a IH]; [done|]. destruct e; simpl; by rewrite ?IH.
Qed.

Section PurgeTask.
Context {W : Type} (E : Env W).

(** A purge cycle locks the mutex once. *)
Lemma purge_cycle_lock_count (st : State W) :
  exists evs,
    trace (snd (purge_cycle E st)) = trace st ++ evs /\ lock_count evs = 1%nat.
Proof.
  destruct (purge_cycle_spec E st)
    as (bds & s' & w' & Heq & Hlen & Hlook & _).
  rewrite Heq. eexists. split; [reflexivity|].
  cbn [lock_count]. rewrite lock_count_app. cbn [lock_count].
  assert (lock_count (concat bds.*1) = O) as ->; [|done].
  assert (forall i bd, bds !! i = Some bd -> lock_count bd.1 = O) as Hall.
  { intros i bd Hbd.
    destruct (lookup_lt_is_Some_2 (range_entries E st) i) as [kv Hkv].
    { rewrite Hlen. by eapply lookup_lt_Some. }
    destruct (Hlook i kv bd Hkv Hbd) as (Hv & _).
    by eapply visit_lock_count. }
  clear -Hall. induction bds as [|bd bds IH]; [done|].
  rewrite fmap_cons. cbn [concat]. rewrite lock_count_app.
  rewrite (Hall O bd eq_refl), IH; [done|].
  intros i bd' Hbd'. by apply (Hall (S i)).
Qed.

(** The loop of the purge task runs one full cycle for every tick,
    whatever the cycles before met. *)
Lemma purge_ticks_cycles (ticks : nat) (st : State W) :
  purge_ticks E ticks st = (Val tt, purge_cycles E ticks st).
Proof.
  revert st. induction ticks as [|n IH]; intros st; [done|].
  cbn [purge_ticks purge_cycles].
  destruct (purge_cycle_spec E st) as (bds & s' & w' & Heq & _).
  rewrite (bind_val _ _ _ _ _ Heq), IH. by rewrite Heq.
Qed.

Lemma purge_cycles_lock_count (ticks : nat) (st : State W) :
  exists evs,
    trace (purge_cycles E ticks st) = trace st ++ evs /\
    lock_count evs = ticks.
Proof.
  revert st. induction ticks as [|n IH]; intros st.
  - exists []. by rewrite app_nil_r.
  - cbn [purge_cycles].
    destruct (purge_cycle_lock_count st) as (evs1 & Ht1 & Hc1).
    destruct (IH (snd (purge_cycle E st))) as (evs2 & Ht2 & Hc2).
    exists (evs1 ++ evs2). rewrite Ht2, Ht1, <- app_assoc.
    split; [done|]. rewrite lock_count_app. lia.
Qed.

(** A run of the purge task: the ticker is made, one cycle is run for
    every tick, and on the closing signal the ticker is stopped and the
    wait group released. *)
Lemma purgeInactiveProcessors_spec (ticks : nat) (st : State W) :
  0 < PurgeInterval (cfg (svc st)) ->
  let st1 := {| svc := svc st; world := world st;
                trace := trace st
                           ++ [EvNewTicker (PurgeInterval (cfg (svc st)))] |} in
  let st2 := purge_cycles E ticks st1 in
  purgeInactiveProcessors E ticks st =
    (Val tt,
     {| svc := svc st2; world := world st2;
        trace := trace st2 ++ [EvTickerStop; EvWgDone] |}).
Proof.
  intros Hpos. cbv zeta. unfold purgeInactiveProcessors, defer.
  go_step. destruct (Z.leb_spec (PurgeInterval (cfg (svc st))) 0); [lia|].
  go_step. rewrite purge_ticks_cycles. simpl. by rewrite <- app_assoc.
Qed.

End PurgeTask.

(** C6: a purge cycle always runs to its end.  Its calls are one block per
    entry of the map, in the order of the range; each block is a complete
    visit of its entry, decided by the answers given for that entry alone:
    it starts with the [LastModified] call on the processor of the entry,
    and an error of [LastModified], [Node], [Close] or [Purge] ends that
    block after the message is logged and leaves the entry in the map,
    while an entry that passes the check without error is removed,
    whatever happened to the entries before.  The purge task runs one full
    cycle for every tick, so no error ends the task: after [ticks] ticks
    the mutex was locked [ticks] times, and the task only returns, with
    the ticker stopped and the wait group released, on the closing
    signal. *)
Theorem purge_cycle_skips_on_error {W} (E : Env W) (st : State W) :
  let st' := snd (purge_cycle E st) in
  let maxAge := MaxAge (cfg (svc st)) in
  fst (purge_cycle E st) = Val tt /\
  range_entries E st ≡ₚ entries (svc st) /\
  (exists blocks : list (list event),
     new_events st st' (EvLock :: concat blocks ++ [EvUnlock]) /\
     Forall2
       (fun kv block =>
          (exists del,
             visit maxAge kv.1 kv.2 block del /\
             processor_of (svc st') kv.1 = if del then None else Some kv.2) /\
          (exists lm err, head block = Some (EvLastModified kv.2 lm err)) /\
          (block_has_error kv.1 kv.2 block ->
           processor_of (svc st') kv.1 = Some kv.2) /\
          (age_check_passed maxAge kv.1 kv.2 block ->
           ~ block_has_error kv.1 kv.2 block ->
           processor_of (svc st') kv.1 = None))
       (range_entries E st) blocks) /\
  (forall ticks,
     purge_ticks E ticks st = (Val tt, purge_cycles E ticks st) /\
     exists evs,
       new_events st (purge_cycles E ticks st) evs /\
       lock_count evs = ticks) /\
  (0 < PurgeInterval (cfg (svc st)) ->
   forall ticks,
     let st1 := {| svc := svc st; world := world st;
                   trace := trace st
                              ++ [EvNewTicker (PurgeInterval (cfg (svc st)))] |} in
     let st2 := purge_cycles E ticks st1 in
     purgeInactiveProcessors E ticks st =
       (Val tt,
        {| svc := svc st2; world := world st2;
           trace := trace st2 ++ [EvTickerStop; EvWgDone] |})).
Proof.
  cbv zeta.
  destruct (purge_cycle_spec E st)
    as (bds & s' & w' & Heq & Hlen & Hlook & Hother).
  split; [by rewrite Heq|].
  split; [apply range_entries_perm|].
  split.
  - exists bds.*1. rewrite Heq. simpl. split; [done|].
    apply Forall2_same_length_lookup_2; [by rewrite length_fmap|].
    intros i kv block Hkv Hblock.
    rewrite list_lookup_fmap in Hblock.
    apply fmap_Some in Hblock as (bd & Hbd & ->).
    destruct (Hlook i kv bd Hkv Hbd) as (Hv & _ & Hp).
    split; [by exists bd.2|].
    split; [by eapply visit_head|]. split.
    + intros Herr. by rewrite Hp, (visit_error_kept _ _ _ _ _ Hv Herr).
    + intros Hpass Hne.
      by rewrite Hp, (visit_passed_no_error _ _ _ _ _ Hv Hpass Hne).
  - split.
    + intros ticks. split; [apply purge_ticks_cycles|].
      apply purge_cycles_lock_count.
    + intros Hpos ticks. by apply purgeInactiveProcessors_spec.
Qed.

Lemma purge_cycle_skips_on_error_witness :
  let st := start (sim_service [(50%N, 1%positive); (52%N, 2%positive);
                                (53%N, 3%positive); (54%N, 4%positive);
                                (55%N, 5%positive)])
                  (sim_world_purge [] [1%positive] [52%N] [3%positive]
                                   [4%positive]) in
  let st' := snd (purge_cycle SimEnv st) in
  (trace st' =
     [EvLock;
      EvLastModified 5%positive 0 None; EvNode 55 None None;
      EvNow (3 * hour); EvClose 5%positive None; EvPurge 5%positive None;
      EvLastModified 3%positive 0 None; EvNode 53 None None;
      EvNow (3 * hour); EvClose 3%positive (Some "close failed");
      EvLog "failed to close node processor %d: %s 53 close failed";
      EvLastModified 2%positive 0 None;
      EvNode 52 None (Some "meta unavailable");
      EvLog "failed to determine if node %d is active: %s 52 meta unavailable";
      EvLastModified 1%positive 0 (Some "stat failed");
      EvLog
        "failed to determine LastModified for processor %d: %s 50 stat failed";
      EvLastModified 4%positive 0 None; EvNode 54 None None;
      EvNow (3 * hour); EvClose 4%positive None;
      EvPurge 4%positive (Some "purge failed");
      EvLog "failed to close node processor %d: %s 54 purge failed";
      EvUnlock] /\
   entries (svc st') =
     [(54%N, 4%positive); (50%N, 1%positive); (52%N, 2%positive);
      (53%N, 3%positive)]) /\
  0 < PurgeInterval (cfg (svc st)) /\
  fst (purge_cycle SimEnv st) = Val tt /\
  purge_ticks SimEnv 2 st = (Val tt, purge_cycles SimEnv 2 st) /\
  fst (purgeInactiveProcessors SimEnv 2 st) = Val tt.
Proof.
  cbv zeta. split.
  - split; vm_compute; reflexivity.
  - pose proof (purge_cycle_skips_on_error SimEnv
                  (start (sim_service [(50%N, 1%positive); (52%N, 2%positive);
                                       (53%N, 3%positive); (54%N, 4%positive);
                                       (55%N, 5%positive)])
                         (sim_world_purge [] [1%positive] [52%N] [3%positive]
                                          [4%positive])))
      as (Hr & _ & _ & Ht & Htask).
    split; [reflexivity|]. split; [exact Hr|].
    split; [exact (proj1 (Ht 2%nat))|].
    exact (f_equal fst (Htask eq_refl 2%nat)).
Defined.

(** *** Decimal node identifiers and node directories *)

Lemma digit_cases (d : N) :
  (d < 10)%N ->
  d = 0%N \/ d = 1%N \/ d = 2%N \/ d = 3%N \/ d = 4%N \/
  d = 5%N \/ d = 6%N \/ d = 7%N \/ d = 8%N \/ d = 9%N.
Proof. lia. Qed.

Lemma digit_of_digit_char (d : N) :
  (d < 10)%N -> digit_of (digit_char d) = Some d.
Proof.
  intros Hd. destruct (digit_cases d Hd) as [->|[->|[->|[->|[->|[->|[->|[->|[->| ->]]]]]]]]];
    reflexivity.
Qed.

Lemma digit_char_not_slash (d : N) :
  (d < 10)%N -> Ascii.eqb (digit_char d) "/" = false.
Proof.
  intros Hd. destruct (digit_cases d Hd) as [->|[->|[->|[->|[->|[->|[->|[->|[->| ->]]]]]]]]];
    reflexivity.
Qed.

Lemma digit_char_not_dot (d : N) :
  (d < 10)%N -> Ascii.eqb (digit_char d) "." = false.
Proof.
  intros Hd. destruct (digit_cases d Hd) as [->|[->|[->|[->|[->|[->|[->|[->|[->| ->]]]]]]]]];
    reflexivity.
Qed.

Lemma digit_char_not_zero (d : N) :
  (1 <= d < 10)%N -> digit_char d <> "0"%char.
Proof.
  intros Hd.
  assert (d = 1%N \/ d = 2%N \/ d = 3%N \/ d = 4%N \/
          d = 5%N \/ d = 6%N \/ d = 7%N \/ d = 8%N \/ d = 9%N)
    as [->|[->|[->|[->|[->|[->|[->|[->| ->]]]]]]]] by lia;
    discriminate.
Qed.

Lemma mod10_lt (n : N) : (n mod 10 < 10)%N.
Proof. by apply N.mod_lt. Qed.

(** Parsing the digits written by [fmt_digits] gives the number back. *)
Lemma ParseUint_loop_fmt_digits (fuel : nat) (n : N) (acc : string) :
  (n < 10 ^ N.of_nat (S fuel))%N ->
  (n <= maxUint64)%N ->
  ParseUint_loop (fmt_digits fuel n acc) 0 = ParseUint_loop acc n.
Proof.
  assert (forall m acc', (m <= maxUint64)%N -> (m < 10)%N ->
            ParseUint_loop (String (digit_char m) acc') 0
            = ParseUint_loop acc' m) as Hsmall.
  { intros m acc' Hmax Hm. cbn [ParseUint_loop].
    rewrite digit_of_digit_char by done.
    change (maxUint64 / 10 + 1 <=? 0)%N with false. cbv iota zeta.
    change (0 * 10 + m)%N with m.
    destruct (N.ltb_spec maxUint64 m); [lia | done]. }
  revert n acc. induction fuel as [|fuel IH]; intros n acc Hlt Hmax.
  - simpl. change (10 ^ N.of_nat 1)%N with 10%N in Hlt.
    rewrite N.mod_small by done. by apply Hsmall.
  - cbn [fmt_digits]. destruct (N.ltb_spec n 10) as [Hn|Hn].
    + rewrite N.mod_small by done. by apply Hsmall.
    + assert (n = 10 * (n / 10) + n mod 10)%N as Hdm
        by (apply N.div_mod; lia).
      pose proof (mod10_lt n) as Hmod.
      rewrite IH.
      * cbn [ParseUint_loop]. rewrite digit_of_digit_char by done.
        change (maxUint64 / 10 + 1)%N with 1844674407370955162%N.
        assert (n / 10 * 10 + n mod 10 = n)%N as Hn1 by lia.
        assert (n / 10 < 1844674407370955162)%N as Hq.
        { unfold maxUint64 in Hmax.
          generalize dependent (n / 10)%N. generalize dependent (n mod 10)%N.
          intros; lia. }
        destruct (N.leb_spec 1844674407370955162 (n / 10)); [lia|].
        cbv zeta. rewrite Hn1.
        destruct (N.ltb_spec maxUint64 n); [lia | done].
      * rewrite Nat2N.inj_succ, N.pow_succ_r' in Hlt.
        apply N.Div0.div_lt_upper_bound. lia.
      * apply N.Div0.div_le_upper_bound. unfold maxUint64 in *. lia.
Qed.

Lemma fmt_digits_head (fuel : nat) (n : N) (acc : string) :
  exists d rest,
    (d < 10)%N /\
    fmt_digits fuel n acc = String (digit_char d) rest /\
    ((0 < n)%N -> (n < 10 ^ N.of_nat (S fuel))%N -> (1 <= d)%N).
Proof.
  revert n acc. induction fuel as [|fuel IH]; intros n acc.
  - exists (n mod 10)%N, acc. split; [apply mod10_lt|]. split; [done|].
    intros Hpos Hlt. change (10 ^ N.of_nat 1)%N with 10%N in Hlt.
    rewrite N.mod_small by done. lia.
  - cbn [fmt_digits]. destruct (N.ltb_spec n 10) as [Hn|Hn].
    + exists (n mod 10)%N, acc. split; [apply mod10_lt|]. split; [done|].
      intros Hpos _. rewrite N.mod_small by done. lia.
    + destruct (IH (n / 10)%N (String (digit_char (n mod 10)) acc))
        as (d & rest & Hd & Heq & Hlead).
      exists d, rest. split; [done|]. split; [done|].
      intros _ Hlt. apply Hlead.
      * apply N.div_str_pos. lia.
      * rewrite Nat2N.inj_succ, N.pow_succ_r' in Hlt.
        apply N.Div0.div_lt_upper_bound. lia.
Qed.

Lemma fmt_digits_no_slash (fuel : nat) (n : N) (acc : string) :
  has_slash (fmt_digits fuel n acc) = has_slash acc.
Proof.
  revert n acc. induction fuel as [|fuel IH]; intros n acc.
  - simpl. by rewrite digit_char_not_slash by apply mod10_lt.
  - cbn [fmt_digits]. destruct (n <? 10)%N.
    + simpl. by rewrite digit_char_not_slash by apply mod10_lt.
    + rewrite IH. simpl. by rewrite digit_char_not_slash by apply mod10_lt.
Qed.

Lemma maxUint64_digits : (maxUint64 < 10 ^ N.of_nat 20)%N.
Proof. reflexivity. Qed.

Lemma ParseUint_Sprintf (n : N) :
  (n <= maxUint64)%N -> ParseUint (fmt_Sprintf_d n) = Some n.
Proof.
  intros Hmax. unfold fmt_Sprintf_d.
  destruct (fmt_digits_head 19 n "") as (d & rest & _ & Heq & _).
  unfold ParseUint. rewrite Heq, <- Heq.
  rewrite ParseUint_loop_fmt_digits; [done | | done].
  pose proof maxUint64_digits. lia.
Qed.

Lemma string_app_cons (x : ascii) (a b : string) :
  String x a +:+ b = String x (a +:+ b).
Proof. reflexivity. Qed.

Lemma string_app_nil_l (a : string) : "" +:+ a = a.
Proof. reflexivity. Qed.

Lemma string_app_assoc (a b c : string) : (a +:+ b) +:+ c = a +:+ b +:+ c.
Proof.
  induction a as [|x a IH]; [done|].
  by rewrite !string_app_cons, IH.
Qed.

Lemma string_app_nil_r (a : string) : a +:+ "" = a.
Proof.
  induction a as [|x a IH]; [done|]. by rewrite string_app_cons, IH.
Qed.

Lemma split_slash_aux_app (a b cur : string) :
  split_slash_aux (a +:+ String "/" b) cur
  = split_slash_aux a cur ++ split_slash_aux b "".
Proof.
  revert cur. induction a as [|c a IH]; intros cur.
  - reflexivity.
  - rewrite string_app_cons. cbn [split_slash_aux].
    destruct (Ascii.eqb c "/"); simpl; by rewrite IH.
Qed.

Lemma split_slash_aux_no_slash (b cur : string) :
  has_slash b = false -> split_slash_aux b cur = [cur +:+ b].
Proof.
  revert cur. induction b as [|c b IH]; intros cur Hb; simpl in *.
  - by rewrite string_app_nil_r.
  - apply orb_false_iff in Hb as [Hc Hb]. rewrite Hc, IH by done.
    by rewrite string_app_assoc, string_app_cons, string_app_nil_l.
Qed.

Lemma join_slash_snoc (l : list string) (x : string) :
  join_slash (l ++ [x]) =
    match l with
    | [] => x
    | _ => join_slash l +:+ "/" +:+ x
    end.
Proof.
  induction l as [|y l IH]; [done|].
  destruct l as [|z l]; [done|].
  change (join_slash ((y :: z :: l) ++ [x]))
    with (y +:+ "/" +:+ join_slash ((z :: l) ++ [x])).
  rewrite IH.
  change (join_slash (y :: z :: l)) with (y +:+ "/" +:+ join_slash (z :: l)).
  by rewrite !string_app_assoc.
Qed.

(** A decimal rendering is kept as it is by [filepath.Clean]. *)
Lemma clean_step_digits rooted stack d rest :
  (d < 10)%N ->
  clean_step rooted stack (String (digit_char d) rest)
  = String (digit_char d) rest :: stack.
Proof.
  intros Hd. unfold clean_step. simpl.
  by rewrite (digit_char_not_dot d Hd).
Qed.

(** The path made by [filepath.Join] from a directory and a decimal
    rendering ends with that rendering as its last element. *)
Lemma filepath_Join_digits (dir : string) d rest :
  (d < 10)%N ->
  has_slash (String (digit_char d) rest) = false ->
  let name := String (digit_char d) rest in
  filepath_Join [dir; name] = name \/
  exists parent, filepath_Join [dir; name] = parent +:+ "/" +:+ name.
Proof.
  intros Hd Hslash. cbv zeta.
  pose proof (clean_step_digits true [] d rest Hd) as Hstep_rooted.
  pose proof (fun rooted stack => clean_step_digits rooted stack d rest Hd)
    as Hstep.
  assert (is_rooted (String (digit_char d) rest) = false) as Hroot
    by (simpl; by apply digit_char_not_slash).
  generalize dependent (String (digit_char d) rest). intros name Hslash _ Hstep Hroot.
  assert (forall p : string, String.eqb (p +:+ name) "" = false) as Hne.
  { intros [|c p].
    - rewrite string_app_nil_l. specialize (Hstep false []).
      destruct name; [|done]. discriminate.
    - reflexivity. }
  unfold filepath_Join. rewrite !filter_cons, filter_nil.
  destruct (decide (name <> "")) as [_|Hn].
  2:{ exfalso. apply Hn. intros ->. specialize (Hne ""). done. }
  destruct (decide (dir <> "")) as [Hdir|Hdir].
  - cbn [join_slash]. unfold filepath_Clean.
    change ("/" +:+ name) with (String "/" name).
    unfold split_slash. rewrite split_slash_aux_app.
    rewrite (split_slash_aux_no_slash name "") by done.
    rewrite string_app_nil_l, fold_left_app. cbn [fold_left].
    rewrite Hstep. cbn [rev]. rewrite join_slash_snoc.
    set (rooted := is_rooted _). set (kept := rev _).
    destruct kept as [|x kept].
    + rewrite Hne. destruct rooted; [right; by exists "" | by left].
    + set (pre := if rooted then "/" else "").
      set (dirs := join_slash (x :: kept)).
      replace (pre +:+ dirs +:+ "/" +:+ name)
        with (((pre +:+ dirs) +:+ "/") +:+ name)
        by (by rewrite !string_app_assoc).
      rewrite Hne. right. exists (pre +:+ dirs).
      by rewrite !string_app_assoc.
  - cbn [join_slash]. unfold filepath_Clean, split_slash.
    rewrite (split_slash_aux_no_slash name "") by done.
    rewrite string_app_nil_l. cbn [fold_left]. rewrite Hstep.
    cbn [rev app join_slash]. rewrite Hroot.
    rewrite (Hne ""). by left.
Qed.

Section OpenLoop.
Context {W : Type} (E : Env W).

Lemma bind_ext {A B} (m : M W A) (k k' : A -> M W B) st :
  (forall a st', k a st' = k' a st') -> bind m k st = bind m k' st.
Proof. intros Hk. unfold bind. by destruct (m st) as [[a|msg] st1]. Qed.

(** The directory entries that are not node identifiers play no part in
    [Open]. *)
Lemma Open_loop_filter (files : list string) (st : State W) :
  Open_loop E files st = Open_loop E (List.filter is_node_dir files) st.
Proof.
  revert st. induction files as [|file files IH]; intros st; [done|].
  cbn [Open_loop List.filter]. unfold is_node_dir at 1.
  destruct (ParseUint file) as [nodeID|] eqn:Hparse; [|apply IH].
  cbn [Open_loop]. rewrite Hparse.
  apply bind_ext; intros s st1. apply bind_ext; intros n st2.
  apply bind_ext; intros [e|] st3; [done|].
  apply bind_ext; intros _ st4. apply IH.
Qed.

End OpenLoop.

(** C9 as stated fails: the directory of node 7 under the root /var/hh is
    /var/hh/7; its last element is not the identifier padded with zeros,
    whatever the width of the padding.  A directory entry named 007 is
    taken for node 7, and its processor is given the directory /var/hh/7. *)
Lemma pathforNode_zero_padded_counterexample :
  let s := NewService (sim_config true) in
  pathforNode s 7 = "/var/hh/7" /\
  zero_padded 20 7 = "00000000000000000007" /\
  ~ (exists width,
       (String.length (fmt_Sprintf_d 7) < width)%nat /\
       filepath_Base (pathforNode s 7) = zero_padded width 7) /\
  trace (snd (Open SimEnv (start (sim_service [])
                                 (sim_world [("/var/hh", ["007"])] 0 [] []))))
  = [EvLock; EvLog "Starting hinted handoff service";
     EvLog "Using data dir: /var/hh"; EvMkdirAll "/var/hh" None;
     EvReadDir "/var/hh" ["007"] None;
     EvNewNodeProcessor 7 "/var/hh/7" 1%positive;
     EvOpen (Some 1%positive) (Val None);
     EvWgAdd 1; EvGoPurge; EvUnlock].
Proof.
  cbv zeta. split; [reflexivity|]. split; [reflexivity|].
  split; [|vm_compute; reflexivity].
  intros (width & Hwidth & Hbase).
  change (filepath_Base (pathforNode (NewService (sim_config true)) 7))
    with "7" in Hbase.
  unfold zero_padded in Hbase.
  change (fmt_Sprintf_d 7) with "7" in *. simpl in Hwidth.
  destruct width as [|[|width]]; [lia | lia |].
  discriminate Hbase.
Qed.

(** C9, amended: the directory of a node is [filepath.Join] of the root
    directory and the plain decimal rendering of the identifier, which is
    the last element of the path; the rendering is not padded (it starts
    with a zero only for node 0) and parses back to the identifier.  [Open]
    ignores the directory entries whose name does not parse as an unsigned
    64-bit integer. *)
Theorem pathforNode_plain_decimal {W} (E : Env W) (s : Service) (id : N)
    (files : list string) (st : State W) :
  (id <= maxUint64)%N ->
  pathforNode s id = filepath_Join [Dir (cfg s); fmt_Sprintf_d id] /\
  (pathforNode s id = fmt_Sprintf_d id \/
   exists parent, pathforNode s id = parent +:+ "/" +:+ fmt_Sprintf_d id) /\
  ParseUint (fmt_Sprintf_d id) = Some id /\
  (fmt_Sprintf_d id = "0" \/
   exists c rest, fmt_Sprintf_d id = String c rest /\ c <> "0"%char) /\
  Open_loop E files st = Open_loop E (List.filter is_node_dir files) st.
Proof.
  intros Hmax. split; [reflexivity|].
  assert (id < 10 ^ N.of_nat 20)%N as Hlt
    by (pose proof maxUint64_digits; lia).
  destruct (fmt_digits_head 19 id "") as (d & rest & Hd & Heq & Hlead).
  fold (fmt_Sprintf_d id) in Heq.
  split.
  { unfold pathforNode. rewrite Heq. apply filepath_Join_digits; [done|].
    rewrite <- Heq. unfold fmt_Sprintf_d. by rewrite fmt_digits_no_slash. }
  split; [by apply ParseUint_Sprintf|].
  split; [|apply Open_loop_filter].
  destruct (N.eq_dec id 0%N) as [->|Hpos]; [by left|].
  right. exists (digit_char d), rest. split; [done|].
  apply digit_char_not_zero. split; [apply Hlead; lia | done].
Qed.

Lemma pathforNode_plain_decimal_witness :
  let s := NewService (sim_config true) in
  let st := start (sim_service []) (sim_world [] 0 [] []) in
  (7 <= maxUint64)%N /\
  pathforNode s 7 = "/var/hh" +:+ "/" +:+ "7" /\
  ParseUint (fmt_Sprintf_d 7) = Some 7%N /\
  List.filter is_node_dir ["7"; "tmp"; "18446744073709551616"; "-3"] = ["7"] /\
  Open_loop SimEnv ["7"; "tmp"; "18446744073709551616"; "-3"] st
  = Open_loop SimEnv ["7"] st.
Proof.
  cbv zeta.
  assert (7 <= maxUint64)%N as Hmax by (unfold maxUint64; lia).
  destruct (pathforNode_plain_decimal SimEnv (NewService (sim_config true)) 7
              ["7"; "tmp"; "18446744073709551616"; "-3"]
              (start (sim_service []) (sim_world [] 0 [] [])) Hmax)
    as (_ & _ & Hparse & _ & Hloop).
  split; [exact Hmax|]. split; [reflexivity|]. split; [exact Hparse|].
  split; [reflexivity | exact Hloop].
Defined.

(** *** [Open] over a map that was made *)

Section OpenRecords.
Context {W : Type} (E : Env W).

Lemma processor_Open_eq (n : addr) (st : State W) :
  processor_Open E (Some n) st =
    (Val (fst (np_Open E n (world st))),
     {| svc := svc st; world := snd (np_Open E n (world st));
        trace := trace st
                   ++ [EvOpen (Some n) (Val (fst (np_Open E n (world st))))] |}).
Proof.
  unfold processor_Open, call_res. by destruct (np_Open E n (world st)).
Qed.

(** Had the processor map been made, and with every processor opening
    without error, the loop of [Open] would construct, open and record a
    processor for each entry that parses, and touch no other key. *)
Lemma Open_loop_made_map (files : list string) (st : State W) :
  (forall p w, fst (np_Open E p w) = None) ->
  is_Some (processors (svc st)) ->
  exists st',
    Open_loop E files st = (Val None, st') /\
    is_Some (processors (svc st')) /\
    cfg (svc st') = cfg (svc st) /\
    (exists evs, trace st' = trace st ++ evs) /\
    (forall id, id ∈ omap ParseUint files ->
       exists p,
         processor_of (svc st') id = Some p /\
         EvNewNodeProcessor id (pathforNode (svc st) id) p ∈ trace st' /\
         EvOpen (Some p) (Val None) ∈ trace st') /\
    (forall id, id ∉ omap ParseUint files ->
       processor_of (svc st') id = processor_of (svc st) id).
Proof.
  intros Hopen. revert st. induction files as [|file rest IH]; intros st Hmade.
  - exists st. split; [done|]. split; [done|]. split; [done|].
    split; [exists []; by rewrite app_nil_r|].
    split; [by intros id ?%elem_of_nil | done].
  - destruct (ParseUint file) as [id0|] eqn:Hparse.
    2:{ destruct (IH st Hmade) as (st' & Heq & Hrest).
        exists st'. cbn [Open_loop omap list_omap]. by rewrite Hparse. }
    destruct Hmade as [m Hm].
    set (n := fst (NewNodeProcessor E id0 (pathforNode (svc st) id0) (world st))).
    set (w1 := snd (NewNodeProcessor E id0 (pathforNode (svc st) id0) (world st))).
    set (st1 :=
           {| svc := {| closing := closing (svc st);
                        processors := Some (<[id0 := n]> m);
                        statMap := statMap (svc st); cfg := cfg (svc st) |};
              world := snd (np_Open E n w1);
              trace := trace st
                         ++ [EvNewNodeProcessor id0 (pathforNode (svc st) id0) n;
                             EvOpen (Some n) (Val None)] |}).
    assert (Open_loop E (file :: rest) st = Open_loop E rest st1) as Hstep.
    { cbn [Open_loop]. rewrite Hparse. unfold new_NodeProcessor.
      do 2 go_step.
      rewrite (bind_val _ _ _ _ _ (processor_Open_eq _ _)).
      cbn [svc world trace fst snd]. rewrite Hopen.
      unfold processors_set. rewrite bind_assoc. go_step. rewrite Hm. go_step.
      subst st1 n w1. by rewrite <- app_assoc. }
    destruct (IH st1 (ltac:(by eexists)))
      as (st' & Heq & Hmade' & Hcfg & (evs & Htr) & Hin & Hout).
    cbn [omap list_omap]. rewrite Hparse, Hstep.
    exists st'. split; [done|]. split; [done|]. split; [done|].
    split; [eexists; rewrite Htr; subst st1; simpl; by rewrite <- app_assoc|].
    assert (processor_of (svc st1) id0 = Some n) as Hn.
    { unfold processor_of. simpl. apply lookup_insert_eq. }
    split.
    + intros id Hid.
      destruct (decide (id ∈ omap ParseUint rest)) as [Hrest|Hrest].
      { destruct (Hin id Hrest) as (p & Hp & Hnew & Hop). by exists p. }
      apply elem_of_cons in Hid as [->|Hid]; [|done].
      exists n. rewrite (Hout id0 Hrest). split; [done|].
      rewrite Htr. subst st1. simpl. split; set_solver.
    + intros id Hid. apply not_elem_of_cons in Hid as [Hne Hid].
      rewrite (Hout id Hid). unfold processor_of. subst st1. simpl.
      rewrite Hm. by apply lookup_insert_ne.
Qed.

End OpenRecords.

(** ** Further properties of the service *)

Section WriteShardPaths.
Context {W : Type} (E : Env W).

Lemma processor_WriteShard_eq (p : addr) shardID points (st : State W) :
  processor_WriteShard E (Some p) shardID points st =
    (Val (fst (np_WriteShard E p shardID points (world st))),
     {| svc := svc st;
        world := snd (np_WriteShard E p shardID points (world st));
        trace := trace st
                   ++ [EvWriteShard (Some p) shardID points
                         (Val (fst (np_WriteShard E p shardID points
                                      (world st))))] |}).
Proof.
  unfold processor_WriteShard, call_res.
  by destruct (np_WriteShard E p shardID points (world st)).
Qed.

End WriteShardPaths.

(** X1: when the owner already has a processor, [WriteShard] on an enabled
    service takes the read lock only, constructs and opens nothing, hands
    the write to that processor and returns what the processor returns; the
    processor map is unchanged. *)
Theorem WriteShard_existing_processor {W} (E : Env W) (st : State W)
    (shardID ownerID : N) (points : list Point) (p : addr) :
  Enabled (cfg (svc st)) = true ->
  processor_of (svc st) ownerID = Some p ->
  let r := WriteShard E shardID ownerID points st in
  let answer := np_WriteShard E p shardID points (world st) in
  fst r = Val (fst answer) /\
  world (snd r) = snd answer /\
  processors (svc (snd r)) = processors (svc st) /\
  closing (svc (snd r)) = closing (svc st) /\
  new_events st (snd r)
    [EvStatAdd writeShardReq 1;
     EvStatAdd writeShardReqPoints (Z.of_nat (length points));
     EvRLock; EvRUnlock;
     EvWriteShard (Some p) shardID points (Val (fst answer))].
Proof.
  intros Hen Hp. cbv zeta. unfold WriteShard.
  go_step. rewrite Hen. cbn [negb].
  erewrite bind_val by apply statMap_Add_eq.
  erewrite bind_val by apply statMap_Add_eq.
  go_step. unfold processors_get. rewrite bind_assoc. do 2 go_step.
  unfold processor_of in *. cbn [processors]. rewrite Hp. do 2 go_step.
  rewrite (bind_val _ _ _ _ _ (processor_WriteShard_eq E _ _ _ _)).
  cbn [svc world trace fst snd closing processors statMap cfg].
  destruct (fst (np_WriteShard E p shardID points (world st))) as [e|];
    unfold ret, new_events; simpl; by rewrite <- !app_assoc.
Qed.

Lemma WriteShard_existing_processor_witness :
  let st := start (sim_service [(99%N, 4%positive)]) (sim_world [] 0 [] []) in
  let r := WriteShard SimEnv 1 99 [MkPoint "p"] st in
  fst r = Val None /\
  trace (snd r) =
    [EvStatAdd writeShardReq 1; EvStatAdd writeShardReqPoints 1;
     EvRLock; EvRUnlock;
     EvWriteShard (Some 4%positive) 1 [MkPoint "p"] (Val None)].
Proof.
  cbv zeta.
  destruct (WriteShard_existing_processor SimEnv
              (start (sim_service [(99%N, 4%positive)]) (sim_world [] 0 [] []))
              1 99 [MkPoint "p"] 4%positive eq_refl eq_refl)
    as (Hr & _ & _ & _ & Hev).
  split; [exact Hr | exact Hev].
Defined.



(** X3: when the root directory cannot be made, [Open] on an enabled
    service returns the error of [os.MkdirAll] behind the prefix
    "mkdir all: ", without listing the directory or starting the purge
    task; the [closing] channel made before is left in place. *)
Theorem Open_MkdirAll_error {W} (E : Env W) (st : State W) (e : error) :
  Enabled (cfg (svc st)) = true ->
  fst (os_MkdirAll E (Dir (cfg (svc st))) (world st)) = Some e ->
  let r := Open E st in
  fst r = Val (Some ("mkdir all: " +:+ e)) /\
  closing (svc (snd r)) = Some ChanOpen /\
  processors (svc (snd r)) = processors (svc st) /\
  new_events st (snd r)
    [EvLock; EvLog "Starting hinted handoff service";
     EvLog ("Using data dir: " +:+ Dir (cfg (svc st)));
     EvMkdirAll (Dir (cfg (svc st))) (Some e); EvUnlock].
Proof.
  intros Hen Hmk. cbv zeta. unfold Open, MkdirAll, new_events.
  go_step. unfold defer.
  go_step. rewrite Hen. cbn [negb].
  do 4 go_step. rewrite Hmk. unfold ret. simpl.
  repeat split. by rewrite <- !app_assoc.
Qed.

Lemma Open_MkdirAll_error_witness :
  let E := SimEnvFs sim_mkdir_denied sim_readdir_fails in
  let r := Open E (start (NewService (sim_config true)) (sim_world [] 0 [] [])) in
  fst r = Val (Some "mkdir all: permission denied") /\
  closing (svc (snd r)) = Some ChanOpen.
Proof.
  cbv zeta.
  destruct (Open_MkdirAll_error (SimEnvFs sim_mkdir_denied sim_readdir_fails)
              (start (NewService (sim_config true)) (sim_world [] 0 [] []))
              "permission denied" eq_refl eq_refl) as (Hr & Hc & _).
  split; [exact Hr | exact Hc].
Defined.

(** X4: when the root directory cannot be listed, [Open] on an enabled
    service returns the error of [ioutil.ReadDir] as it is; no processor is
    constructed and the purge task is not started. *)
Theorem Open_ReadDir_error {W} (E : Env W) (st : State W) (e : error) :
  Enabled (cfg (svc st)) = true ->
  let dir := Dir (cfg (svc st)) in
  let made := os_MkdirAll E dir (world st) in
  let listed := ioutil_ReadDir E dir (snd made) in
  fst made = None ->
  snd (fst listed) = Some e ->
  let r := Open E st in
  fst r = Val (Some e) /\
  closing (svc (snd r)) = Some ChanOpen /\
  processors (svc (snd r)) = processors (svc st) /\
  new_events st (snd r)
    [EvLock; EvLog "Starting hinted handoff service";
     EvLog ("Using data dir: " +:+ dir);
     EvMkdirAll dir None; EvReadDir dir (fst (fst listed)) (Some e);
     EvUnlock].
Proof.
  intros Hen. cbv zeta. intros Hmk Hrd. unfold Open, MkdirAll, ReadDir, new_events.
  go_step. unfold defer.
  go_step. rewrite Hen. cbn [negb].
  do 4 go_step. rewrite Hmk. go_step. rewrite Hrd. unfold ret. simpl.
  repeat split. by rewrite <- !app_assoc.
Qed.

Lemma Open_ReadDir_error_witness :
  let E := SimEnvFs sim_MkdirAll sim_readdir_fails in
  let r := Open E (start (NewService (sim_config true)) (sim_world [] 0 [] [])) in
  fst r = Val (Some "input/output error") /\
  trace (snd r) =
    [EvLock; EvLog "Starting hinted handoff service";
     EvLog "Using data dir: /var/hh";
     EvMkdirAll "/var/hh" None;
     EvReadDir "/var/hh" [] (Some "input/output error"); EvUnlock].
Proof.
  cbv zeta.
  destruct (Open_ReadDir_error (SimEnvFs sim_MkdirAll sim_readdir_fails)
              (start (NewService (sim_config true)) (sim_world [] 0 [] []))
              "input/output error" eq_refl eq_refl eq_refl) as (Hr & _ & _ & Hev).
  split; [exact Hr | exact Hev].
Defined.

Section OpenPurgeTask.
Context {W : Type} (E : Env W).


End OpenPurgeTask.



(** X7: whatever [Close] returns, it removes no processor from the map:
    the map, the counters and the configuration are as before, so the
    processors it closed are still handed out to later [WriteShard] calls. *)
Theorem Close_keeps_processors {W} (E : Env W) (st : State W) :
  processors (svc (snd (Close E st))) = processors (svc st) /\
  statMap (svc (snd (Close E st))) = statMap (svc st) /\
  cfg (svc (snd (Close E st))) = cfg (svc st).
Proof.
  unfold Close. go_step. unfold defer. go_step.
  set (st1 := {| svc := svc st; world := world st;
                 trace := trace st ++ [EvLock] |}).
  destruct (Close_loop_spec E (range_entries E st1) st1)
    as [(w' & Heq)|(closed & k & p & rest & e & w' & Hps & Heq)];
    rewrite (bind_val _ _ _ _ _ Heq); subst st1;
    cbn [svc world trace fst snd closing processors statMap cfg];
    [|done].
  destruct (closing (svc st)) as [[|]|] eqn:Hc; go_step; rewrite Hc.
  - unfold close_closing. rewrite bind_assoc. go_step. rewrite Hc.
    rewrite bind_assoc. by repeat go_step.
  - unfold close_closing. rewrite bind_assoc. go_step. rewrite Hc.
    by unfold panic, bind.
  - by repeat go_step.
Qed.

Section PurgeFrame.
Context {W : Type} (E : Env W).

(** What a purge cycle cannot change in the service. *)
Lemma purge_loop_keeps (ps : list (N * addr)) (st : State W) :
  let s' := svc (snd (purge_loop E ps st)) in
  closing s' = closing (svc st) /\
  statMap s' = statMap (svc st) /\
  cfg s' = cfg (svc st) /\
  (processors (svc st) = None <-> processors s' = None).
Proof.
  revert st. induction ps as [|[k v] ps IH]; intros st; [done|].
  cbn [purge_loop].
  destruct (purge_processor_spec E k v st) as (block & del & w1 & _ & Heq).
  rewrite (bind_val _ _ _ _ _ Heq).
  match goal with |- context [purge_loop E ps ?st1] =>
    destruct (IH st1) as (Hc & Hs & Hcf & Hn)
  end.
  cbv zeta in *. rewrite Hc, Hs, Hcf, <- Hn. simpl.
  destruct del; [|done]. unfold delete_processor. simpl.
  repeat split; by destruct (processors (svc st)).
Qed.

End PurgeFrame.

(** X8: a purge cycle only ever removes entries: a key that has a
    processor afterwards had the same processor before, a nil map stays
    nil and a made map stays made, and the [closing] channel, the counters
    and the configuration are unchanged. *)
Theorem purge_cycle_only_removes {W} (E : Env W) (st : State W) :
  let s' := svc (snd (purge_cycle E st)) in
  closing s' = closing (svc st) /\
  statMap s' = statMap (svc st) /\
  cfg s' = cfg (svc st) /\
  (processors (svc st) = None <-> processors s' = None) /\
  (forall k v, processor_of s' k = Some v -> processor_of (svc st) k = Some v).
Proof.
  cbv zeta.
  assert (closing (svc (snd (purge_cycle E st))) = closing (svc st) /\
          statMap (svc (snd (purge_cycle E st))) = statMap (svc st) /\
          cfg (svc (snd (purge_cycle E st))) = cfg (svc st) /\
          (processors (svc st) = None <->
           processors (svc (snd (purge_cycle E st))) = None)) as Hkeep.
  { unfold purge_cycle. go_step. unfold defer. go_step.
    match goal with |- context [purge_loop E ?ps ?st1] =>
      pose proof (purge_loop_keeps E ps st1) as Hk;
      destruct (purge_loop E ps st1) as [r st2]
    end.
    exact Hk. }
  destruct Hkeep as (Hc & Hs & Hcf & Hn).
  split; [done|]. split; [done|]. split; [done|]. split; [done|].
  destruct (purge_cycle_spec E st)
    as (bds & s' & w' & Heq & Hlen & Hlook & Hother).
  rewrite Heq. simpl. intros k v Hk.
  destruct (decide (k ∈ (range_entries E st).*1)) as [Hin|Hout].
  - apply list_elem_of_fmap in Hin as (kv & -> & Hin).
    apply list_elem_of_lookup_1 in Hin as (i & Hi).
    destruct (lookup_lt_is_Some_2 bds i) as [bd Hbd].
    { rewrite <- Hlen. by eapply lookup_lt_Some. }
    destruct (Hlook i kv bd Hi Hbd) as (_ & Hbefore & Hafter).
    rewrite Hafter in Hk. destruct bd.2; [done|]. congruence.
  - by rewrite <- (Hother k Hout).
Qed.

(** X9: a purge cycle over a map without entries, nil or empty, takes and
    releases the mutex and does nothing else: no processor, metastore or
    clock call, and the service is unchanged. *)
Theorem purge_cycle_no_entries {W} (E : Env W) (st : State W) :
  entries (svc st) = [] ->
  purge_cycle E st =
    (Val tt, {| svc := svc st; world := world st;
                trace := trace st ++ [EvLock; EvUnlock] |}).
Proof.
  intros Hnone.
  assert (range_entries E st = []) as Hrange.
  { pose proof (range_entries_perm E st) as Hperm. rewrite Hnone in Hperm.
    by apply Permutation_nil_r in Hperm. }
  unfold purge_cycle. go_step. unfold defer. go_step.
  change (range_entries E _) with (range_entries E st). rewrite Hrange.
  simpl. by rewrite <- app_assoc.
Qed.

Lemma purge_cycle_no_entries_witness :
  let st := start (NewService (sim_config true)) (sim_world [] 0 [] []) in
  purge_cycle SimEnv st =
    (Val tt, {| svc := svc st; world := world st;
                trace := [EvLock; EvUnlock] |}).
Proof.
  exact (purge_cycle_no_entries SimEnv
           (start (NewService (sim_config true)) (sim_world [] 0 [] []))
           eq_refl).
Defined.

(** *** Node directories are distinct *)

Lemma string_app_inv_head (p a b : string) : p +:+ a = p +:+ b -> a = b.
Proof.
  induction p as [|c p IH]; [done|].
  rewrite !string_app_cons. intros [= Heq]. by apply IH.
Qed.

Lemma is_rooted_app (dir rest : string) :
  dir <> "" -> is_rooted (dir +:+ rest) = is_rooted dir.
Proof. by destruct dir. Qed.

(** Under a given directory, [filepath.Join] puts the same prefix in front
    of every decimal rendering. *)
Lemma filepath_Join_prefix (dir : string) :
  exists prefix, forall d rest,
    (d < 10)%N ->
    has_slash (String (digit_char d) rest) = false ->
    filepath_Join [dir; String (digit_char d) rest]
    = prefix +:+ String (digit_char d) rest.
Proof.
  destruct (decide (dir = "")) as [->|Hdir].
  - exists "". intros d rest Hd Hslash.
    destruct (filepath_Join_digits "" d rest Hd Hslash) as [Heq|[parent Heq]];
      [done|].
    revert Heq. unfold filepath_Join. rewrite !filter_cons, filter_nil.
    destruct (decide ("" <> "")) as [Hne|_]; [done|].
    destruct (decide (String (digit_char d) rest <> "")) as [_|Hn];
      [|by destruct Hn].
    cbn [join_slash]. unfold filepath_Clean, split_slash.
    rewrite (split_slash_aux_no_slash _ "") by done.
    rewrite string_app_nil_l. cbn [fold_left].
    rewrite clean_step_digits by done. cbn [rev app join_slash].
    assert (is_rooted (String (digit_char d) rest) = false) as ->
      by (simpl; by apply digit_char_not_slash).
    by rewrite string_app_nil_l.
  - set (rooted := is_rooted dir).
    set (kept := rev (fold_left (clean_step rooted) (split_slash_aux dir "") [])).
    exists ((if rooted then "/" else "")
            +:+ match kept with
                | [] => ""
                | _ => join_slash kept +:+ "/"
                end).
    intros d rest Hd Hslash.
    pose proof (clean_step_digits rooted) as Hstep.
    specialize (fun stack => Hstep stack d rest Hd).
    generalize dependent (String (digit_char d) rest). intros name Hslash Hstep.
    assert (name <> "") as Hname.
    { intros ->. specialize (Hstep []). unfold clean_step in Hstep.
      simpl in Hstep. discriminate. }
    assert (forall p : string, String.eqb (p +:+ name) "" = false) as Hne.
    { intros [|c p]; [|done]. rewrite string_app_nil_l. by destruct name. }
    unfold filepath_Join. rewrite !filter_cons, filter_nil.
    destruct (decide (name <> "")) as [_|Hn]; [|by destruct Hn].
    destruct (decide (dir <> "")) as [_|Hn]; [|by destruct Hn].
    cbn [join_slash]. unfold filepath_Clean.
    change ("/" +:+ name) with (String "/" name).
    rewrite is_rooted_app by done. fold rooted.
    unfold split_slash. rewrite split_slash_aux_app.
    rewrite (split_slash_aux_no_slash name "") by done.
    rewrite string_app_nil_l, fold_left_app. cbn [fold_left].
    rewrite Hstep. cbn [rev]. fold kept. rewrite join_slash_snoc.
    destruct kept as [|x kept'].
    + rewrite string_app_nil_r. by rewrite Hne.
    + set (pre := if rooted then "/" else "").
      set (dirs := join_slash (x :: kept')).
      replace (pre +:+ dirs +:+ "/" +:+ name)
        with ((pre +:+ dirs +:+ "/") +:+ name)
        by (by rewrite !string_app_assoc).
      by rewrite Hne.
Qed.

Lemma fmt_Sprintf_d_shape (n : N) :
  exists d rest,
    (d < 10)%N /\
    fmt_Sprintf_d n = String (digit_char d) rest /\
    has_slash (String (digit_char d) rest) = false.
Proof.
  destruct (fmt_digits_head 19 n "") as (d & rest & Hd & Heq & _).
  exists d, rest. split; [done|]. split; [done|].
  rewrite <- Heq. by rewrite fmt_digits_no_slash.
Qed.

(** X10: under one service, two different node identifiers never get the
    same directory. *)
Theorem pathforNode_injective (s : Service) (a b : N) :
  (a <= maxUint64)%N ->
  (b <= maxUint64)%N ->
  pathforNode s a = pathforNode s b ->
  a = b.
Proof.
  intros Ha Hb. unfold pathforNode.
  destruct (filepath_Join_prefix (Dir (cfg s))) as [prefix Hprefix].
  destruct (fmt_Sprintf_d_shape a) as (da & resta & Hda & Heqa & Hsa).
  destruct (fmt_Sprintf_d_shape b) as (db & restb & Hdb & Heqb & Hsb).
  pose proof (ParseUint_Sprintf a Ha) as Hpa.
  pose proof (ParseUint_Sprintf b Hb) as Hpb.
  rewrite Heqa, Heqb in *.
  rewrite (Hprefix da resta Hda Hsa), (Hprefix db restb Hdb Hsb).
  intros Heq%string_app_inv_head. rewrite Heq in Hpa. congruence.
Qed.

Lemma pathforNode_injective_witness :
  let s := NewService (sim_config true) in
  (pathforNode s 7 = "/var/hh/7" /\ 7%N = 7%N) /\
  pathforNode s 7 <> pathforNode s 70.
Proof.
  cbv zeta.
  assert (7 <= maxUint64)%N as H7 by (unfold maxUint64; lia).
  assert (70 <= maxUint64)%N as H70 by (unfold maxUint64; lia).
  split.
  - split; [reflexivity|].
    exact (pathforNode_injective (NewService (sim_config true)) 7 7
             H7 H7 eq_refl).
  - intros Heq.
    pose proof (pathforNode_injective (NewService (sim_config true)) 7 70
                  H7 H70 Heq) as Habs.
    discriminate Habs.
Defined.

(** *** Counters over a sequence of writes *)

Lemma wrap_int64_range (z : Z) : int64 (wrap_int64 z).
Proof.
  unfold int64, wrap_int64.
  pose proof (Z.mod_pos_bound (z + 2 ^ 63) (2 ^ 64) ltac:(lia)). lia.
Qed.

Lemma wrap_int64_add_l (a b : Z) :
  wrap_int64 (wrap_int64 a + b) = wrap_int64 (a + b).
Proof.
  unfold wrap_int64. f_equal.
  replace ((a + 2 ^ 63) mod 2 ^ 64 - 2 ^ 63 + b + 2 ^ 63)
    with ((a + 2 ^ 63) mod 2 ^ 64 + b) by lia.
  rewrite Zplus_mod_idemp_l. f_equal. lia.
Qed.

Lemma WriteShard_keeps_cfg {W} (E : Env W) (st : State W) shardID ownerID points :
  cfg (svc (snd (WriteShard E shardID ownerID points st))) = cfg (svc st).
Proof.
  destruct (Enabled (cfg (svc st))) eqn:Hen.
  - unfold WriteShard. go_step. rewrite Hen. cbn [negb].
    erewrite bind_val by apply statMap_Add_eq.
    erewrite bind_val by apply statMap_Add_eq.
    match goal with
    | |- context [snd (?m ?st0)] =>
        assert (preserves (fun _ => True) m) as Hrest by preserves_tac;
        destruct (Hrest st0) as (_ & Hcfg & _)
    end.
    exact Hcfg.
  - by rewrite WriteShard_disabled.
Qed.

(** X11: over any sequence of [WriteShard] calls on an enabled service,
    whatever each call returns, [write_shard_req] grows by the number of
    calls and [write_shard_req_points] by the total number of points
    (int64 additions). *)
Theorem write_all_counts {W} (E : Env W) (reqs : list (N * N * list Point))
    (st : State W) :
  Enabled (cfg (svc st)) = true ->
  int64 (stat (svc st) writeShardReq) ->
  int64 (stat (svc st) writeShardReqPoints) ->
  stat (svc (write_all E reqs st)) writeShardReq
    = wrap_int64 (stat (svc st) writeShardReq + Z.of_nat (length reqs)) /\
  stat (svc (write_all E reqs st)) writeShardReqPoints
    = wrap_int64 (stat (svc st) writeShardReqPoints + total_points reqs).
Proof.
  revert st. induction reqs as [|[[shardID ownerID] points] reqs IH];
    intros st Hen Hreq Hpts.
  - simpl. rewrite !Z.add_0_r, !wrap_int64_id by done. done.
  - cbn [write_all].
    destruct (WriteShard_enabled_counters E st shardID ownerID points Hen)
      as (H1 & H2 & _).
    pose proof (WriteShard_keeps_cfg E st shardID ownerID points) as Hcfg.
    cbv zeta in H1, H2.
    set (st1 := snd (WriteShard E shardID ownerID points st)) in *.
    destruct (IH st1) as [IH1 IH2].
    + by rewrite Hcfg.
    + rewrite H1. apply wrap_int64_range.
    + rewrite H2. apply wrap_int64_range.
    + rewrite IH1, IH2, H1, H2, !wrap_int64_add_l.
      unfold total_points. cbn [foldr length snd].
      split; f_equal; lia.
Qed.

Lemma write_all_counts_witness :
  let st := start (NewService (sim_config true)) (sim_world [] 0 [] []) in
  let reqs := [(1%N, 99%N, [MkPoint "a"; MkPoint "b"]); (2%N, 98%N, []);
               (1%N, 99%N, [MkPoint "c"])] in
  stat (svc (write_all SimEnv reqs st)) writeShardReq = 3 /\
  stat (svc (write_all SimEnv reqs st)) writeShardReqPoints = 3.
Proof.
  cbv zeta.
  assert (int64 0) as H0 by (unfold int64; lia).
  exact (write_all_counts SimEnv
           [(1%N, 99%N, [MkPoint "a"; MkPoint "b"]); (2%N, 98%N, []);
            (1%N, 99%N, [MkPoint "c"])]
           (start (NewService (sim_config true)) (sim_world [] 0 [] []))
           eq_refl H0 H0).
Defined.

(** X12: whatever the collaborators answer, [WriteShard] only touches the
    counters and the mutex, constructs processors, calls [Open] on a nil
    pointer and [WriteShard] on a processor: it never opens, closes or
    purges an allocated processor and never calls the file system, the
    metastore or the clock. *)
Theorem WriteShard_calls {W} (E : Env W) (shardID ownerID : N)
    (points : list Point) :
  emits WriteShard_event (WriteShard E shardID ownerID points).
Proof.
  unfold WriteShard.
  apply emits_bind; [apply emits_preserves, preserves_get_svc|]. intros s.
  destruct (negb (Enabled (cfg s))).
  { apply emits_preserves, preserves_ret. }
  apply emits_bind; [by apply emits_statMap_Add|]. intros _.
  apply emits_bind; [by apply emits_statMap_Add|]. intros _.
  apply emits_preserves. preserves_tac.
Qed.

(** X13: on an enabled service whose processor map was made, when the root
    directory can be made and listed and every processor opens, [Open]
    returns success, starts the purge task, and every entry whose name
    parses as an identifier has a processor in the map that was
    constructed on the directory of that identifier and opened; the keys
    that no entry names are as before. *)
Theorem Open_records_processors {W} (E : Env W) (st : State W) :
  Enabled (cfg (svc st)) = true ->
  is_Some (processors (svc st)) ->
  (forall p w, fst (np_Open E p w) = None) ->
  let dir := Dir (cfg (svc st)) in
  let made := os_MkdirAll E dir (world st) in
  let listed := ioutil_ReadDir E dir (snd made) in
  fst made = None ->
  snd (fst listed) = None ->
  let r := Open E st in
  let ids := omap ParseUint (fst (fst listed)) in
  fst r = Val None /\
  EvGoPurge ∈ trace (snd r) /\
  (forall id, id ∈ ids ->
     exists p,
       processor_of (svc (snd r)) id = Some p /\
       EvNewNodeProcessor id (pathforNode (svc st) id) p ∈ trace (snd r) /\
       EvOpen (Some p) (Val None) ∈ trace (snd r)) /\
  (forall id, id ∉ ids ->
     processor_of (svc (snd r)) id = processor_of (svc st) id).
Proof.
  intros Hen Hmade Hopen. cbv zeta. intros Hmk Hrd.
  unfold Open, MkdirAll, ReadDir.
  go_step. unfold defer.
  go_step. rewrite Hen. cbn [negb].
  do 4 go_step. rewrite Hmk. go_step. rewrite Hrd.
  match goal with |- context [bind (Open_loop E ?names) _ ?st3] =>
    destruct (Open_loop_made_map E names st3 Hopen Hmade)
      as (st4 & Hloop & _ & _ & _ & Hin & Hout);
    rewrite (bind_val _ _ _ _ _ Hloop)
  end.
  do 2 go_step. unfold ret. simpl. split; [done|].
  split; [set_solver|]. split.
  - intros id Hid. destruct (Hin id Hid) as (p & Hp & Hnew & Hop).
    exists p. split; [done|]. split; set_solver.
  - intros id Hid. by rewrite (Hout id Hid).
Qed.

Lemma Open_records_processors_witness :
  let st := start (sim_service [(3%N, 9%positive)])
                  (sim_world [("/var/hh", ["7"; "tmp"; "12"])] 0 [] []) in
  let r := Open SimEnvOpen st in
  fst r = Val None /\ EvGoPurge ∈ trace (snd r).
Proof.
  cbv zeta.
  destruct (Open_records_processors SimEnvOpen
              (start (sim_service [(3%N, 9%positive)])
                     (sim_world [("/var/hh", ["7"; "tmp"; "12"])] 0 [] []))
              eq_refl (ex_intro _ _ eq_refl) (fun _ _ => eq_refl)
              eq_refl eq_refl) as (Hr & Hp & _).
  split; [exact Hr | exact Hp].
Defined.
